(** * go-snipeit: the resilient request-execution layer

    A shallow embedding of the token-bucket rate limiter (ratelimit.go) and
    of the retrying request executor (the client file: DoWithOptions, doOnce,
    shouldRetry, newRequestWithContext), followed by the properties of the
    design document that concern them.

    Conventions of the embedding.
    - A [time.Time] is its monotonic clock reading and a [time.Duration] its
      count of nanoseconds, both in [Z]; Duration arithmetic that Go performs
      in float64 is performed here in exact rationals [Q] and converted back
      with Go's float-to-integer rule (truncation toward zero).  The exact
      model has the finite values only; the token bucket is therefore
      embedded a second time over IEEE 754 binary64 numbers, where NaN and
      the infinities are values too.
    - Blocking operations ([select] between a timer and [ctx.Done()], the
      transport round trip, the random source) are inputs: an environment
      record supplies what each of them yields, and the functions below return
      the trace of what the code did next to its result. *)

From Stdlib Require Import ZArith QArith Qminmax Qround Lqa String Ascii List Bool Lia.
From Stdlib Require PrimFloat Uint63.
From stdpp Require Import base option gmap.

Local Open Scope Z_scope.

(** ** Durations and errors *)

Module Duration.

Definition Nanosecond : Z := 1.
Definition Microsecond : Z := 1000.
Definition Millisecond : Z := 1000000.
Definition Second : Z := 1000000000.
Definition Minute : Z := 60 * Second.
Definition Hour : Z := 60 * Minute.

Definition minDuration : Z := - 2 ^ 63.
Definition maxDuration : Z := 2 ^ 63 - 1.

(** [Time.Sub]: the difference of two clock readings, saturated to the
    range of int64. *)
Definition Sub (t u : Z) : Z :=
  Z.max minDuration (Z.min maxDuration (t - u)).

(** [Duration.Seconds]: a duration as a number of seconds. *)
Definition Seconds (d : Z) : Q := inject_Z d / inject_Z Second.

(** Go's conversion [time.Duration(x)] of a float: truncation toward
    zero.  A value beyond the range of int64, where Go leaves the result to
    the implementation, is kept as it is. *)
Definition ofQ (x : Q) : Z := Z.quot (Qnum x) (Zpos (Qden x)).

End Duration.

(** Go [error] values, as far as the executor can tell them apart:
    the two context sentinels, errors that wrap another one (what
    [errors.Is] walks through, such as [*url.Error]), leaf errors, and the
    client's own [*ErrorResponse]. *)
Inductive error : Type :=
| Canceled
| DeadlineExceeded
| Wrapped (msg : string) (inner : error)
| Opaque (msg : string)
| ErrorResponseError (status : Z) (message : string).

Fixpoint is_Canceled (e : error) : bool :=
  match e with
  | Canceled => true
  | Wrapped _ inner => is_Canceled inner
  | _ => false
  end.

Fixpoint is_DeadlineExceeded (e : error) : bool :=
  match e with
  | DeadlineExceeded => true
  | Wrapped _ inner => is_DeadlineExceeded inner
  | _ => false
  end.

(** ** ratelimit.go: the token bucket *)

(** What the two-way [select] of a blocking wait yields: the timer fired, or
    [ctx.Done()] was ready first and [ctx.Err()] is the given error. *)
Inductive race : Type :=
| TimerFired
| ContextDone (reason : error).

(** The part of the world a [Wait] call observes: the clock reading of
    [time.Now()], and the outcome of racing a timer of a given duration
    against the caller's context. *)
Record WaitEnv : Type := mkWaitEnv {
  we_now : Z;
  we_race : Z -> race
}.

(** The [RateLimiter] interface: one blocking, cancellable operation.  The
    result carries the duration of the timer the call armed, if it armed
    one. *)
Class RateLimiter (L : Type) : Type :=
  Wait : L -> WaitEnv -> L * option Z * option error.

Module TokenBucket.

Definition defaultMaxRequestsPerSecond : Z := 10.
Definition defaultBurstSize : Z := 15.

Record TokenBucketRateLimiter : Type := mkLimiter {
  tokens : Q;
  maxTokens : Q;
  tokensPerSec : Q;
  lastRefillTime : Z
}.

Definition NewTokenBucketRateLimiter
    (now : Z) (requestsPerSecond : Q) (burstSize : Z) : TokenBucketRateLimiter :=
  let requestsPerSecond :=
    if Qle_bool requestsPerSecond 0
    then inject_Z defaultMaxRequestsPerSecond else requestsPerSecond in
  let burstSize :=
    if burstSize <=? 0 then defaultBurstSize else burstSize in
  {| tokens := inject_Z burstSize;
     maxTokens := inject_Z burstSize;
     tokensPerSec := requestsPerSecond;
     lastRefillTime := now |}.

(** The first four statements of [Wait]: the refill. *)
Definition refill (r : TokenBucketRateLimiter) (now : Z) : TokenBucketRateLimiter :=
  let elapsed := Duration.Seconds (Duration.Sub now (lastRefillTime r)) in
  {| tokens := Qmin (maxTokens r) (tokens r + elapsed * tokensPerSec r);
     maxTokens := maxTokens r;
     tokensPerSec := tokensPerSec r;
     lastRefillTime := now |}.

Definition set_tokens (r : TokenBucketRateLimiter) (t : Q) : TokenBucketRateLimiter :=
  {| tokens := t;
     maxTokens := maxTokens r;
     tokensPerSec := tokensPerSec r;
     lastRefillTime := lastRefillTime r |}.

(** The duration of the timer armed when no token is available. *)
Definition waitTime (r : TokenBucketRateLimiter) : Z :=
  Duration.ofQ ((1 - tokens r) / tokensPerSec r * inject_Z Duration.Second).

Definition Wait_bucket (r : TokenBucketRateLimiter) (env : WaitEnv)
    : TokenBucketRateLimiter * option Z * option error :=
  let r := refill r (we_now env) in
  if Qle_bool 1 (tokens r) then
    (set_tokens r (tokens r - 1), None, None)
  else
    let w := waitTime r in
    match we_race env w with
    | TimerFired => (set_tokens r 0, Some w, None)
    | ContextDone reason => (r, Some w, Some reason)
    end.

#[global] Instance TokenBucket_RateLimiter : RateLimiter TokenBucketRateLimiter :=
  Wait_bucket.

(** The state predicate of the data model. *)
Definition tokens_in_range (r : TokenBucketRateLimiter) : Prop :=
  (0 <= tokens r)%Q /\ (tokens r <= maxTokens r)%Q.

(** A limiter the constructor can have produced keeps a positive rate. *)
Definition rate_positive (r : TokenBucketRateLimiter) : Prop :=
  (0 < tokensPerSec r)%Q.

(** A run of the limiter: successive [Wait] calls, each with the world it
    observes. *)
Fixpoint run (r : TokenBucketRateLimiter) (calls : list WaitEnv)
    : TokenBucketRateLimiter :=
  match calls with
  | [] => r
  | env :: rest => run (fst (fst (Wait_bucket r env))) rest
  end.

(** The clock of the calls never runs backwards (Go's monotonic clock). *)
Fixpoint monotonic (last : Z) (calls : list WaitEnv) : Prop :=
  match calls with
  | [] => True
  | env :: rest => last <= we_now env /\ monotonic (we_now env) rest
  end.

(** The contract of [Wait] in the words of the design document: the
    refilled token count, the wait in seconds turned into a timer
    duration, and the three outcomes with the state each one leaves. *)
Definition refilled_tokens (r : TokenBucketRateLimiter) (now : Z) : Q :=
  let elapsed := Duration.Seconds (Duration.Sub now (lastRefillTime r)) in
  Qmin (maxTokens r) (tokens r + elapsed * tokensPerSec r).

Definition seconds_to_Duration (q : Q) : Z :=
  Duration.ofQ (q * inject_Z Duration.Second).

Inductive Wait_contract (r : TokenBucketRateLimiter) (env : WaitEnv)
    : TokenBucketRateLimiter * option Z * option error -> Prop :=
| wait_immediate :
    (1 <= refilled_tokens r (we_now env))%Q ->
    Wait_contract r env
      (mkLimiter (refilled_tokens r (we_now env) - 1)
         (maxTokens r) (tokensPerSec r) (we_now env), None, None)
| wait_timer (d : Z) :
    (refilled_tokens r (we_now env) < 1)%Q ->
    d = seconds_to_Duration ((1 - refilled_tokens r (we_now env)) / tokensPerSec r) ->
    we_race env d = TimerFired ->
    Wait_contract r env
      (mkLimiter 0 (maxTokens r) (tokensPerSec r) (we_now env), Some d, None)
| wait_cancelled (d : Z) (reason : error) :
    (refilled_tokens r (we_now env) < 1)%Q ->
    d = seconds_to_Duration ((1 - refilled_tokens r (we_now env)) / tokensPerSec r) ->
    we_race env d = ContextDone reason ->
    Wait_contract r env
      (mkLimiter (refilled_tokens r (we_now env))
         (maxTokens r) (tokensPerSec r) (we_now env), Some d, Some reason).

End TokenBucket.

(** ** ratelimit.go over float64

    The constructor and [Wait] once more, with the limiter's fields as
    IEEE 754 binary64 numbers, which is what Go's float64 is.  The values the
    exact model has no counterpart for -- NaN, the infinities, results that
    are rounded -- are values here, and the comparisons are the IEEE ones,
    false whenever an operand is NaN.  [math.Min] and [Duration.Seconds] are
    transcribed from the Go sources.  The timer is given as the float64
    product the code computes: its conversion to a [time.Duration] is
    implementation-defined outside the range of int64, and what the race
    yields is an input in either case. *)

Module TokenBucket64.

Import PrimFloat.

(** [float64(n)] for an integer [n] with |n| < 2^63. *)
Definition float64_of_int (n : Z) : float :=
  if n <? 0 then opp (of_uint63 (Uint63.of_Z (- n)))
  else of_uint63 (Uint63.of_Z n).

(** [math.Min]: -Inf if either is -Inf, NaN if either is NaN, -0 before
    +0, else the smaller. *)
Definition math_Min (x y : float) : float :=
  if (is_infinity x && get_sign x) || (is_infinity y && get_sign y)
  then neg_infinity
  else if is_nan x || is_nan y then nan
  else if eqb x 0%float && eqb x y then (if get_sign x then x else y)
  else if ltb x y then x else y.

(** [Duration.Seconds]: the whole seconds plus the nanoseconds over 1e9. *)
Definition Seconds (d : Z) : float :=
  let sec := Z.quot d Duration.Second in
  let nsec := Z.rem d Duration.Second in
  (float64_of_int sec + float64_of_int nsec / 1e9)%float.

Record TokenBucketRateLimiter : Type := mkLimiter {
  tokens : float;
  maxTokens : float;
  tokensPerSec : float;
  lastRefillTime : Z
}.

Definition NewTokenBucketRateLimiter
    (now : Z) (requestsPerSecond : float) (burstSize : Z) : TokenBucketRateLimiter :=
  let requestsPerSecond :=
    if leb requestsPerSecond 0%float
    then float64_of_int TokenBucket.defaultMaxRequestsPerSecond
    else requestsPerSecond in
  let burstSize :=
    if burstSize <=? 0 then TokenBucket.defaultBurstSize else burstSize in
  {| tokens := float64_of_int burstSize;
     maxTokens := float64_of_int burstSize;
     tokensPerSec := requestsPerSecond;
     lastRefillTime := now |}.

(** What a [Wait] call observes: the clock, and the outcome of racing the
    timer against the caller's context. *)
Record WaitEnv64 : Type := mkWaitEnv64 {
  now64 : Z;
  race64 : float -> race
}.

Definition set_tokens (r : TokenBucketRateLimiter) (t : float) : TokenBucketRateLimiter :=
  {| tokens := t;
     maxTokens := maxTokens r;
     tokensPerSec := tokensPerSec r;
     lastRefillTime := lastRefillTime r |}.

Definition Wait_bucket (r : TokenBucketRateLimiter) (env : WaitEnv64)
    : TokenBucketRateLimiter * option float * option error :=
  let now := now64 env in
  let elapsed := Seconds (Duration.Sub now (lastRefillTime r)) in
  let r :=
    {| tokens := math_Min (maxTokens r) (tokens r + elapsed * tokensPerSec r)%float;
       maxTokens := maxTokens r;
       tokensPerSec := tokensPerSec r;
       lastRefillTime := now |} in
  if leb 1%float (tokens r) then
    (set_tokens r (tokens r - 1)%float, None, None)
  else
    let waitTime :=
      ((1 - tokens r) / tokensPerSec r * float64_of_int Duration.Second)%float in
    match race64 env waitTime with
    | TimerFired => (set_tokens r 0%float, Some waitTime, None)
    | ContextDone reason => (r, Some waitTime, Some reason)
    end.

(** The state predicate of the data model, with Go's comparisons. *)
Definition tokens_in_range (r : TokenBucketRateLimiter) : bool :=
  leb 0%float (tokens r) && leb (tokens r) (maxTokens r).

(** A run of the limiter: successive [Wait] calls, each with the world it
    observes. *)
Fixpoint run (r : TokenBucketRateLimiter) (calls : list WaitEnv64)
    : TokenBucketRateLimiter :=
  match calls with
  | [] => r
  | env :: rest => run (fst (fst (Wait_bucket r env))) rest
  end.

(** A caller whose context is already cancelled when the limiter makes it
    wait, and one whose context never fires. *)
Definition cancelled_caller (now : Z) : WaitEnv64 :=
  mkWaitEnv64 now (fun _ => ContextDone Canceled).

Definition patient_caller (now : Z) : WaitEnv64 :=
  mkWaitEnv64 now (fun _ => TimerFired).

End TokenBucket64.

(** ** Go's [time.ParseDuration]

    [shouldRetry] hands the Retry-After header, with an "s" appended, to the
    standard library's duration parser, so what the executor accepts as a
    retry hint is decided by that parser.  It is transcribed here from the
    Go sources: [leadingInt], [leadingFraction], the unit table and the main
    loop, with its uint64 arithmetic.  The one float64 product of the
    original, [float64(f) * (float64(unit) / scale)], is computed exactly and
    truncated. *)

Module GoTime.

Definition is_digit (c : ascii) : bool :=
  (48 <=? nat_of_ascii c)%nat && (nat_of_ascii c <=? 57)%nat.

Definition digit_val (c : ascii) : Z := Z.of_nat (nat_of_ascii c) - 48.

Definition is_dot (c : ascii) : bool := Ascii.eqb c "."%char.

Definition wrap64 (x : Z) : Z := x mod 2 ^ 64.

(** [leadingInt]: the leading [0-9]* of [s] as a number, [None] on
    overflow. *)
Fixpoint leadingInt_from (x : Z) (s : string) : option (Z * string) :=
  match s with
  | String c rest =>
      if is_digit c then
        if x >? 2 ^ 63 / 10 then None
        else
          let x := x * 10 + digit_val c in
          if x >? 2 ^ 63 then None else leadingInt_from x rest
      else Some (x, s)
  | EmptyString => Some (x, s)
  end.

Definition leadingInt (s : string) : option (Z * string) := leadingInt_from 0 s.

(** [leadingFraction]: the leading [0-9]* of [s] as numerator and scale;
    on overflow it stops accumulating digits. *)
Fixpoint leadingFraction_from (x scale : Z) (overflow : bool) (s : string)
    : Z * Z * string :=
  match s with
  | String c rest =>
      if is_digit c then
        if overflow then leadingFraction_from x scale true rest
        else if x >? (2 ^ 63 - 1) / 10 then leadingFraction_from x scale true rest
        else
          let y := x * 10 + digit_val c in
          if y >? 2 ^ 63 then leadingFraction_from x scale true rest
          else leadingFraction_from y (scale * 10) false rest
      else (x, scale, s)
  | EmptyString => (x, scale, s)
  end.

Definition leadingFraction (s : string) : Z * Z * string :=
  leadingFraction_from 0 1 false s.

(** The unit of a group: everything up to the next digit or period. *)
Fixpoint span_unit (s : string) : string * string :=
  match s with
  | String c rest =>
      if is_dot c || is_digit c then (EmptyString, s)
      else let (u, r) := span_unit rest in (String c u, r)
  | EmptyString => (EmptyString, EmptyString)
  end.

(** The two spellings of the micro sign, as UTF-8 bytes. *)
Definition micro_sign_us : string :=
  String (ascii_of_nat 194) (String (ascii_of_nat 181) "s").
Definition greek_mu_us : string :=
  String (ascii_of_nat 206) (String (ascii_of_nat 188) "s").

Definition unitMap (u : string) : option Z :=
  if String.eqb u "ns" then Some Duration.Nanosecond
  else if String.eqb u "us" then Some Duration.Microsecond
  else if String.eqb u micro_sign_us then Some Duration.Microsecond
  else if String.eqb u greek_mu_us then Some Duration.Microsecond
  else if String.eqb u "ms" then Some Duration.Millisecond
  else if String.eqb u "s" then Some Duration.Second
  else if String.eqb u "m" then Some Duration.Minute
  else if String.eqb u "h" then Some Duration.Hour
  else None.

(** The body of the main loop: one group [digits(.digits)?unit] at the
    head of a nonempty [s], as its value in nanoseconds and the rest of the
    input. *)
Definition parse_group (s : string) : option (Z * string) :=
  match s with
  | EmptyString => None
  | String c0 _ =>
      if negb (is_dot c0 || is_digit c0) then None
      else
        match leadingInt s with
        | None => None
        | Some (v, s1) =>
            let pre := negb (String.length s =? String.length s1)%nat in
            let '(f, scale, s2, post) :=
              match s1 with
              | String c1 s1' =>
                  if is_dot c1 then
                    let '(f, scale, s2) := leadingFraction s1' in
                    (f, scale, s2,
                     negb (String.length s1' =? String.length s2)%nat)
                  else (0, 1, s1, false)
              | EmptyString => (0, 1, s1, false)
              end in
            if negb pre && negb post then None
            else
              let (u, s3) := span_unit s2 in
              if String.eqb u EmptyString then None
              else
                match unitMap u with
                | None => None
                | Some unit =>
                    if v >? 2 ^ 63 / unit then None
                    else
                      let v := wrap64 (v * unit) in
                      let v :=
                        if f >? 0
                        then wrap64 (v + Z.quot (f * unit) scale)
                        else v in
                      if (f >? 0) && (v >? 2 ^ 63) then None
                      else Some (v, s3)
                end
        end
  end.

(** The main loop, [for s != ""]: the recursion is on a bound of the number
    of groups left, which the length of the input provides since every group
    consumes its unit. *)
Fixpoint parse_groups (bound : nat) (s : string) (d : Z) : option Z :=
  match s with
  | EmptyString => Some d
  | String _ _ =>
      match bound with
      | O => None
      | S bound =>
          match parse_group s with
          | None => None
          | Some (v, s3) =>
              let d := wrap64 (d + v) in
              if d >? 2 ^ 63 then None
              else parse_groups bound s3 d
          end
      end
  end.

(** [time.ParseDuration]: [Some] of the duration in nanoseconds, or [None]
    where Go returns an error. *)
Definition ParseDuration (orig : string) : option Z :=
  let (neg, s) :=
    match orig with
    | String c rest =>
        if Ascii.eqb c "-"%char then (true, rest)
        else if Ascii.eqb c "+"%char then (false, rest)
        else (false, orig)
    | EmptyString => (false, orig)
    end in
  if String.eqb s "0" then Some 0
  else if String.eqb s EmptyString then None
  else
    match parse_groups (String.length s) s 0 with
    | None => None
    | Some d =>
        if neg then Some (- d)
        else if d >? 2 ^ 63 - 1 then None
        else Some d
    end.

(** [time.Until(t)] at clock reading [now]. *)
Definition Until (now t : Z) : Z := Duration.Sub t now.

End GoTime.

(** ** The client: data *)

(** A nil pointer or nil interface value is [None]. *)
Definition is_nil {A : Type} (x : option A) : bool :=
  match x with
  | None => true
  | Some _ => false
  end.

(** [io.EOF] is the one further error value the client compares against. *)
Definition EOF : error := Opaque "EOF".

Definition is_EOF (e : error) : bool :=
  match e with
  | Opaque m => String.eqb m "EOF"
  | _ => false
  end.

Record RetryPolicy : Type := mkRetryPolicy {
  MaxRetries : Z;
  RetryableStatusCodes : gmap Z bool;
  InitialBackoff : Z;
  MaxBackoff : Z;
  BackoffMultiplier : Q;
  Jitter : Q
}.

Definition defaultMaxRetries : Z := 3.
Definition defaultInitialBackoff : Z := 1 * Duration.Second.
Definition defaultMaxBackoff : Z := 30 * Duration.Second.
Definition defaultBackoffMultiplier : Q := 2.
Definition defaultJitter : Q := 2 # 10.

Definition DefaultRetryPolicy : RetryPolicy :=
  {| MaxRetries := defaultMaxRetries;
     RetryableStatusCodes :=
       <[429 := true]> (<[500 := true]> (<[502 := true]>
         (<[503 := true]> (<[504 := true]> (∅ : gmap Z bool)))));
     InitialBackoff := defaultInitialBackoff;
     MaxBackoff := defaultMaxBackoff;
     BackoffMultiplier := defaultBackoffMultiplier;
     Jitter := defaultJitter |}.

(** Indexing a Go [map[int]bool]: an absent key reads as [false]. *)
Definition status_retryable (policy : RetryPolicy) (code : Z) : bool :=
  default false (RetryableStatusCodes policy !! code).

(** A [context.Context], by what the code observes of it: the outcome of
    each [select] that involves [ctx.Done()].  The blocking ones race a timer
    of the given duration; the one in [doOnce] is non-blocking and yields
    [ctx.Err()] when the context is done.  [nat] arguments count attempts or
    retry rounds. *)
Record Context : Type := mkContext {
  done_in_limiter : Z -> race;
  done_after_send : nat -> option error;
  done_in_backoff : nat -> Z -> race
}.

(** An [*http.Response]: status, headers, and the body as its bytes followed
    by the error its reader ends with ([None] for a clean end of stream). *)
Record Response : Type := mkResponse {
  StatusCode : Z;
  RespHeader : list (string * string);
  RespBody : string;
  RespBodyErr : option error
}.

(** [Header.Get]: the first value under the key, or the empty string. *)
Fixpoint Header_Get (h : list (string * string)) (key : string) : string :=
  match h with
  | [] => EmptyString
  | (k, v) :: rest => if String.eqb k key then v else Header_Get rest key
  end.

(** Request bodies are [io.Reader] objects that several request values may
    point to ([Request.Clone] copies the pointer, not the reader).  The heap
    maps the address of each reader to the bytes it has not yet yielded. *)
Definition Heap : Type := list string.

Definition alloc (h : Heap) (content : string) : Heap * nat :=
  (h ++ [content], length h).

Definition unread (h : Heap) (a : nat) : string :=
  default EmptyString (h !! a).

Fixpoint string_drop (n : nat) (s : string) : string :=
  match n, s with
  | O, _ => s
  | S n, String _ rest => string_drop n rest
  | S _, EmptyString => EmptyString
  end.

(** Reading [n] bytes from the reader at [a]. *)
Definition consume (h : Heap) (a : nat) (n : nat) : Heap :=
  <[a := string_drop n (unread h a)]> h.

(** An [*http.Request].  [GetBody], when set, returns a new reader over the
    given bytes, or an error. *)
Record Request : Type := mkRequest {
  Method : string;
  URL : string;
  ReqHeader : list (string * string);
  ReqContext : Context;
  Body : option nat;
  GetBody : option (error + string)
}.

Definition WithContext (req : Request) (ctx : Context) : Request :=
  {| Method := Method req; URL := URL req; ReqHeader := ReqHeader req;
     ReqContext := ctx; Body := Body req; GetBody := GetBody req |}.

(** [Request.Clone] copies the request value; the clone's [Body] is the same
    reader. *)
Definition Clone (req : Request) (ctx : Context) : Request := WithContext req ctx.

Definition set_Body (req : Request) (a : nat) : Request :=
  {| Method := Method req; URL := URL req; ReqHeader := ReqHeader req;
     ReqContext := ReqContext req; Body := Some a; GetBody := GetBody req |}.

(** What the transport is handed at one attempt: the request line, the
    headers and the bytes its body reader still holds. *)
Record Sent : Type := mkSent {
  sent_method : string;
  sent_url : string;
  sent_header : list (string * string);
  sent_body : option string
}.

Definition snapshot (h : Heap) (req : Request) : Sent :=
  {| sent_method := Method req; sent_url := URL req;
     sent_header := ReqHeader req;
     sent_body := match Body req with
                  | Some a => Some (unread h a)
                  | None => None
                  end |}.

(** One round trip of the underlying [http.Client]: an error or a response,
    and how many bytes of the request body it read. *)
Record RoundTrip : Type := mkRoundTrip {
  rt_result : error + Response;
  rt_read : nat
}.

(** The decode target [v] of a call: nil, an [io.Writer] (with the error its
    [Write] returns, if any), or a value to decode JSON into. *)
Inductive Target : Type :=
| NoTarget
| RawSink (write_err : option error)
| JSONTarget.

(** The world of one call to the executor: the network, the clock, the
    random source, and the standard-library parsers whose results the code
    branches on. *)
Record World : Type := mkWorld {
  roundTrip : nat -> Sent -> RoundTrip;
  clock : nat -> Z;
  limiter_clock : Z;
  rand_Float64 : nat -> Q;
  parse_RFC1123 : string -> option Z;
  json_Decode : string -> option error -> option error;
  json_message : string -> string
}.

Record RequestOptions : Type := mkRequestOptions {
  opt_Context : option Context;
  opt_DisableRetries : bool
}.

Record Client (L : Type) : Type := mkClient {
  rateLimiter : option L;
  retryPolicy : option RetryPolicy;
  disableRetries : bool
}.
Arguments rateLimiter {L} _.
Arguments retryPolicy {L} _.
Arguments disableRetries {L} _.
Arguments mkClient {L} _ _ _.

Record ClientOptions (L : Type) : Type := mkClientOptions {
  co_RateLimiter : option L;
  co_RetryPolicy : option RetryPolicy;
  co_DisableRetries : bool
}.
Arguments co_RateLimiter {L} _.
Arguments co_RetryPolicy {L} _.
Arguments co_DisableRetries {L} _.
Arguments mkClientOptions {L} _ _ _.

(** The retry and rate-limit part of [NewClientWithOptions]. *)
Definition NewClientWithOptions {L : Type} (options : option (ClientOptions L)) : Client L :=
  let options :=
    match options with
    | Some o => o
    | None => mkClientOptions None None false
    end in
  {| rateLimiter := co_RateLimiter options;
     disableRetries := co_DisableRetries options;
     retryPolicy :=
       if negb (co_DisableRetries options) && is_nil (co_RetryPolicy options)
       then Some DefaultRetryPolicy
       else co_RetryPolicy options |}.

(** ** The client: operations *)

Definition is_2xx (code : Z) : bool := (200 <=? code) && (code <? 300).

(** [errors.Is(err, context.Canceled) || errors.Is(err, context.DeadlineExceeded)]. *)
Definition is_context_error (e : error) : bool :=
  is_Canceled e || is_DeadlineExceeded e.

(** [shouldRetry], at clock reading [now]. *)
Definition shouldRetry (w : World) (now : Z)
    (resp : option Response) (err : option error) (policy : RetryPolicy) : bool * Z :=
  if is_nil err && match resp with Some r => is_2xx (StatusCode r) | None => false end
  then (false, 0)
  else if match resp with Some r => status_retryable policy (StatusCode r) | None => false end
  then
    let retryAfter :=
      match resp with
      | Some r => Header_Get (RespHeader r) "Retry-After"
      | None => EmptyString
      end in
    if negb (String.eqb retryAfter EmptyString) then
      match GoTime.ParseDuration (retryAfter ++ "s") with
      | Some seconds => (true, seconds)
      | None =>
          match parse_RFC1123 w retryAfter with
          | Some date =>
              let delay := GoTime.Until now date in
              if delay >? 0 then (true, delay) else (true, 0)
          | None => (true, 0)
          end
      end
    else (true, 0)
  else
    match err with
    | Some e => if is_context_error e then (false, 0) else (true, 0)
    | None => (false, 0)
    end.

(** [io.Copy] of a response body into a sink. *)
Definition io_Copy (resp : Response) (write_err : option error) : option error :=
  match RespBody resp, write_err with
  | String _ _, Some e => Some e
  | _, _ => RespBodyErr resp
  end.

Record Attempt : Type := mkAttempt {
  at_heap : Heap;
  at_sent : Sent;
  at_resp : option Response;
  at_err : option error
}.

(** [doOnce]: attempt number [n], with the heap of body readers before and
    after the transport has read from the request's.  The body of an error
    response is decoded for its message; a body with a member named
    Response, which the decoder would write through to the response
    itself, is left out of the embedding. *)
Definition doOnce (w : World) (ctx : Context) (n : nat) (h : Heap)
    (req : Request) (v : Target) : Attempt :=
  let sent := snapshot h req in
  let rt := roundTrip w n sent in
  let h := match Body req with
           | Some a => consume h a (rt_read rt)
           | None => h
           end in
  match rt_result rt with
  | inl err =>
      match done_after_send ctx n with
      | Some ctx_err => mkAttempt h sent None (Some ctx_err)
      | None => mkAttempt h sent None (Some err)
      end
  | inr resp =>
      let c := StatusCode resp in
      if (200 >? c) || (c >? 299) then
        let message :=
          match RespBodyErr resp with
          | None => json_message w (RespBody resp)
          | Some _ => EmptyString
          end in
        mkAttempt h sent (Some resp) (Some (ErrorResponseError c message))
      else
        match v with
        | NoTarget => mkAttempt h sent (Some resp) None
        | RawSink write_err => mkAttempt h sent (Some resp) (io_Copy resp write_err)
        | JSONTarget =>
            let decErr := json_Decode w (RespBody resp) (RespBodyErr resp) in
            let decErr :=
              match decErr with
              | Some e => if is_EOF e then None else Some e
              | None => None
              end in
            mkAttempt h sent (Some resp) decErr
        end
  end.

(** What an execution did, in order. *)
Inductive event : Type :=
| EvLimiterWait (err : option error)
| EvAttempt (n : nat) (sent : Sent) (resp : option Response) (err : option error)
| EvSleep (round : nat) (backoff retryAfter d : Z)
| EvCancelled (err : error)
| EvGetBody (result : error + string).

Definition attempt_event (n : nat) (a : Attempt) : event :=
  EvAttempt n (at_sent a) (at_resp a) (at_err a).

Record Outcome (L : Type) : Type := mkOutcome {
  out_resp : option Response;
  out_err : option error;
  out_trace : list event;
  out_heap : Heap;
  out_limiter : option L
}.
Arguments out_resp {L} _.
Arguments out_err {L} _.
Arguments out_trace {L} _.
Arguments out_heap {L} _.
Arguments out_limiter {L} _.
Arguments mkOutcome {L} _ _ _ _ _.

(** The jittered wait computed from the running backoff. *)
Definition jittered (w : World) (policy : RetryPolicy) (round : nat) (backoff : Z) : Z :=
  let jitterRange := (Duration.Seconds backoff * Jitter policy)%Q in
  let jitter :=
    Duration.ofQ (rand_Float64 w round * jitterRange * inject_Z Duration.Second) in
  backoff - jitter.

(** The wait before a retry: the retry hint when positive, else the
    jittered backoff. *)
Definition wait_before_retry (w : World) (policy : RetryPolicy) (round : nat)
    (backoff retryAfter : Z) : Z :=
  if retryAfter >? 0 then retryAfter else jittered w policy round backoff.

(** "Increase backoff for next time". *)
Definition increase (policy : RetryPolicy) (backoff : Z) : Z :=
  let backoff := Duration.ofQ (inject_Z backoff * BackoffMultiplier policy) in
  if backoff >? MaxBackoff policy then MaxBackoff policy else backoff.

(** The state the retry loop carries from one turn to the next. *)
Record LoopState : Type := mkLoopState {
  ls_resp : option Response;
  ls_err : option error;
  ls_backoff : Z;
  ls_heap : Heap;
  ls_trace : list event
}.

(** "Create a new request for each retry": the clone of [req], with a body
    from [GetBody] when the request has one, or the error of [GetBody]. *)
Definition rebuild (h : Heap) (req : Request) (ctx : Context) : error + Heap * Request :=
  let retryReq := Clone req ctx in
  match GetBody req with
  | Some (inl body_err) => inl body_err
  | Some (inr content) =>
      let (h, a) := alloc h content in
      inr (h, set_Body retryReq a)
  | None => inr (h, retryReq)
  end.

Definition getbody_events (req : Request) : list event :=
  match GetBody req with
  | Some result => [EvGetBody result]
  | None => []
  end.

(** The retry loop of [DoWithOptions]: [fuel] turns are left and [retries]
    is the loop counter.  The state it ends in holds the pair returned to
    the caller. *)
Fixpoint retry_loop (w : World) (ctx : Context) (policy : RetryPolicy)
    (req : Request) (v : Target) (fuel retries : nat) (st : LoopState) : LoopState :=
  match fuel with
  | O => st
  | S fuel =>
      let (should, retryAfter) :=
        shouldRetry w (clock w retries) (ls_resp st) (ls_err st) policy in
      if negb should then st
      else
        let waitTime :=
          wait_before_retry w policy retries (ls_backoff st) retryAfter in
        let trace :=
          ls_trace st ++ [EvSleep retries (ls_backoff st) retryAfter waitTime] in
        match done_in_backoff ctx retries waitTime with
        | ContextDone ctx_err =>
            mkLoopState (ls_resp st) (Some ctx_err) (ls_backoff st) (ls_heap st)
              (trace ++ [EvCancelled ctx_err])
        | TimerFired =>
            let backoff :=
              if retryAfter >? 0 then ls_backoff st
              else increase policy (ls_backoff st) in
            let trace := trace ++ getbody_events req in
            match rebuild (ls_heap st) req ctx with
            | inl body_err =>
                mkLoopState (ls_resp st) (Some body_err) backoff (ls_heap st) trace
            | inr (h, retryReq) =>
                let a := doOnce w ctx (S retries) h retryReq v in
                retry_loop w ctx policy req v fuel (S retries)
                  (mkLoopState (at_resp a) (at_err a) backoff (at_heap a)
                     (trace ++ [attempt_event (S retries) a]))
            end
        end
  end.

(** The context a call runs under: the override of the options, else the
    request's own. *)
Definition effective_context (req : Request) (opts : option RequestOptions) : Context :=
  match opts with
  | Some o =>
      match opt_Context o with
      | Some ctx => ctx
      | None => ReqContext req
      end
  | None => ReqContext req
  end.

Section DoWithOptions.

Context {L : Type} `{RateLimiter L}.

(** The world the limiter sees when [DoWithOptions] calls it under [ctx]. *)
Definition limiter_env (w : World) (ctx : Context) : WaitEnv :=
  mkWaitEnv (limiter_clock w) (done_in_limiter ctx).

(** The policy a call retries under, [None] when retries are off for it:
    "disableRetries || c.retryPolicy == nil". *)
Definition effective_policy (c : Client L) (opts : option RequestOptions)
    : option RetryPolicy :=
  let disableRetries :=
    match opts with
    | Some o => if opt_DisableRetries o then true else disableRetries c
    | None => disableRetries c
    end in
  if disableRetries then None else retryPolicy c.

Definition DoWithOptions (c : Client L) (w : World) (h : Heap)
    (req : Request) (v : Target) (opts : option RequestOptions) : Outcome L :=
  let ctx := effective_context req opts in
  let req := WithContext req ctx in
  let '(limiter, trace, refused) :=
    match rateLimiter c with
    | Some l =>
        let '(l, _, err) := Wait l (limiter_env w ctx) in
        (Some l, [EvLimiterWait err], err)
    | None => (None, [], None)
    end in
  match refused with
  | Some err => mkOutcome None (Some err) trace h limiter
  | None =>
      match effective_policy c opts with
      | None =>
          let a := doOnce w ctx 0 h req v in
          mkOutcome (at_resp a) (at_err a)
            (trace ++ [attempt_event 0 a]) (at_heap a) limiter
      | Some retryPolicy =>
          let a := doOnce w ctx 0 h req v in
          let st :=
            retry_loop w ctx retryPolicy req v
              (Z.to_nat (MaxRetries retryPolicy)) 0
              (mkLoopState (at_resp a) (at_err a) (InitialBackoff retryPolicy)
                 (at_heap a) (trace ++ [attempt_event 0 a])) in
          mkOutcome (ls_resp st) (ls_err st) (ls_trace st) (ls_heap st) limiter
      end
  end.

(** What the limiter answers to the call, [None] also when there is no
    limiter. *)
Definition limiter_answer (c : Client L) (w : World) (ctx : Context) : option error :=
  match rateLimiter c with
  | Some l => snd (Wait l (limiter_env w ctx))
  | None => None
  end.

Definition limiter_events (c : Client L) (w : World) (ctx : Context) : list event :=
  match rateLimiter c with
  | Some l => [EvLimiterWait (snd (Wait l (limiter_env w ctx)))]
  | None => []
  end.

(** The first attempt of a call, and the state the retry loop starts in. *)
Definition first_attempt (w : World) (h : Heap) (req : Request) (v : Target)
    (opts : option RequestOptions) : Attempt :=
  let ctx := effective_context req opts in
  doOnce w ctx 0 h (WithContext req ctx) v.

Definition loop_start (c : Client L) (w : World) (h : Heap) (req : Request)
    (v : Target) (opts : option RequestOptions) (policy : RetryPolicy) : LoopState :=
  let a := first_attempt w h req v opts in
  mkLoopState (at_resp a) (at_err a) (InitialBackoff policy) (at_heap a)
    (limiter_events c w (effective_context req opts) ++ [attempt_event 0 a]).

End DoWithOptions.

(** [newRequestWithContext].  The JSON encoder, the resolution of the path
    against [BaseURL] and the validation inside [http.NewRequestWithContext]
    are the standard library's and are taken as given; the part of
    [http.NewRequestWithContext] that matters to retries is what it does with
    a [*bytes.Buffer] body: the request reads from the buffer, and [GetBody]
    returns a new reader over a snapshot of the buffer's bytes. *)
Section NewRequest.

Variable V : Type.
Variable json_Encode : V -> error + string.
Variable BaseURL_Parse : string -> error + string.
Variable http_validate : string -> string -> option error.
Variable token : string.

Definition TrimPrefix_slash (s : string) : string :=
  match s with
  | String c rest => if Ascii.eqb c "/"%char then rest else s
  | EmptyString => s
  end.

Definition newRequestWithContext (h : Heap) (ctx : Context)
    (method urlStr : string) (body : option V) : Heap * (error + Request) :=
  match BaseURL_Parse (TrimPrefix_slash urlStr) with
  | inl err => (h, inl err)
  | inr u =>
      let buf :=
        match body with
        | Some b =>
            match json_Encode b with
            | inl err => inl err
            | inr encoded => inr (Some encoded)
            end
        | None => inr None
        end in
      match buf with
      | inl err => (h, inl err)
      | inr buf =>
          match http_validate method u with
          | Some err => (h, inl err)
          | None =>
              let '(h, body, getBody) :=
                match buf with
                | Some content =>
                    let (h, a) := alloc h content in
                    (h, Some a, Some (inr content))
                | None => (h, None, None)
                end in
              (h, inr {| Method := method;
                         URL := u;
                         ReqHeader := [("Accept", "application/json");
                                       ("Content-Type", "application/json");
                                       ("Authorization", token)]%string;
                         ReqContext := ctx;
                         Body := body;
                         GetBody := getBody |})
          end
      end
  end.

End NewRequest.

(** The turns of the retry loop as a relation between the state a turn
    starts in and the state the loop ends in: the loop counter has reached
    the bound, the last outcome is not eligible, the context fired during the
    wait, [GetBody] failed, or another attempt was made and the loop went
    on. *)
Inductive loop_run (w : World) (ctx : Context) (policy : RetryPolicy)
    (req : Request) (v : Target) : nat -> nat -> LoopState -> LoopState -> Prop :=
| run_exhausted (retries : nat) (st : LoopState) :
    loop_run w ctx policy req v O retries st st
| run_not_eligible (fuel retries : nat) (st : LoopState) (ra : Z) :
    shouldRetry w (clock w retries) (ls_resp st) (ls_err st) policy = (false, ra) ->
    loop_run w ctx policy req v (S fuel) retries st st
| run_cancelled (fuel retries : nat) (st : LoopState) (ra : Z) (e : error) :
    shouldRetry w (clock w retries) (ls_resp st) (ls_err st) policy = (true, ra) ->
    done_in_backoff ctx retries
      (wait_before_retry w policy retries (ls_backoff st) ra) = ContextDone e ->
    loop_run w ctx policy req v (S fuel) retries st
      (mkLoopState (ls_resp st) (Some e) (ls_backoff st) (ls_heap st)
         ((ls_trace st
           ++ [EvSleep retries (ls_backoff st) ra
                 (wait_before_retry w policy retries (ls_backoff st) ra)])
          ++ [EvCancelled e]))
| run_getbody_failed (fuel retries : nat) (st : LoopState) (ra : Z) (e : error) :
    shouldRetry w (clock w retries) (ls_resp st) (ls_err st) policy = (true, ra) ->
    done_in_backoff ctx retries
      (wait_before_retry w policy retries (ls_backoff st) ra) = TimerFired ->
    GetBody req = Some (inl e) ->
    loop_run w ctx policy req v (S fuel) retries st
      (mkLoopState (ls_resp st) (Some e)
         (if ra >? 0 then ls_backoff st else increase policy (ls_backoff st))
         (ls_heap st)
         ((ls_trace st
           ++ [EvSleep retries (ls_backoff st) ra
                 (wait_before_retry w policy retries (ls_backoff st) ra)])
          ++ [EvGetBody (inl e)]))
| run_retry (fuel retries : nat) (st st' : LoopState) (ra : Z)
    (h : Heap) (retryReq : Request) :
    shouldRetry w (clock w retries) (ls_resp st) (ls_err st) policy = (true, ra) ->
    done_in_backoff ctx retries
      (wait_before_retry w policy retries (ls_backoff st) ra) = TimerFired ->
    rebuild (ls_heap st) req ctx = inr (h, retryReq) ->
    loop_run w ctx policy req v fuel (S retries)
      (let a := doOnce w ctx (S retries) h retryReq v in
       mkLoopState (at_resp a) (at_err a)
         (if ra >? 0 then ls_backoff st else increase policy (ls_backoff st))
         (at_heap a)
         (((ls_trace st
            ++ [EvSleep retries (ls_backoff st) ra
                  (wait_before_retry w policy retries (ls_backoff st) ra)])
           ++ getbody_events req)
          ++ [attempt_event (S retries) a]))
      st' ->
    loop_run w ctx policy req v (S fuel) retries st st'.

(** ** Reading traces *)

Definition is_attempt (e : event) : bool :=
  match e with
  | EvAttempt _ _ _ _ => true
  | _ => false
  end.

Definition is_limiter_wait (e : event) : bool :=
  match e with
  | EvLimiterWait _ => true
  | _ => false
  end.

Definition attempts (t : list event) : list event := List.filter is_attempt t.

Definition limiter_waits (t : list event) : list event := List.filter is_limiter_wait t.

(** The bodies handed to the transport, attempt by attempt. *)
Fixpoint sent_bodies (t : list event) : list (option string) :=
  match t with
  | [] => []
  | EvAttempt _ s _ _ :: rest => sent_body s :: sent_bodies rest
  | _ :: rest => sent_bodies rest
  end.

(** Status and error of each attempt, in order. *)
Fixpoint attempt_outcomes (t : list event) : list (option Z * option error) :=
  match t with
  | [] => []
  | EvAttempt _ _ resp err :: rest =>
      (option_map StatusCode resp, err) :: attempt_outcomes rest
  | _ :: rest => attempt_outcomes rest
  end.

(** Every attempt has a limiter admission of its own: scanning the trace,
    each attempt uses up one admission that came after the previous
    attempt. *)
Fixpoint each_attempt_cleared (cleared : bool) (t : list event) : bool :=
  match t with
  | [] => true
  | EvLimiterWait None :: rest => each_attempt_cleared true rest
  | EvAttempt _ _ _ _ :: rest => cleared && each_attempt_cleared false rest
  | _ :: rest => each_attempt_cleared cleared rest
  end.

(** An attempt occurs only after a limiter call that returned no error. *)
Fixpoint attempts_follow_admission (cleared : bool) (t : list event) : bool :=
  match t with
  | [] => true
  | EvLimiterWait None :: rest => attempts_follow_admission true rest
  | EvAttempt _ _ _ _ :: rest => cleared && attempts_follow_admission cleared rest
  | _ :: rest => attempts_follow_admission cleared rest
  end.

(** The waits between attempts, as (round, running backoff, retry hint,
    duration waited). *)
Fixpoint sleeps (t : list event) : list (nat * Z * Z * Z) :=
  match t with
  | [] => []
  | EvSleep n b ra d :: rest => (n, b, ra, d) :: sleeps rest
  | _ :: rest => sleeps rest
  end.

(** The running backoff across the successive waits of one execution, in
    the words of the design: it starts at [b]; a round that waits on a
    positive retry hint waits that long and leaves the running value as it
    is; a round that waits on computed backoff waits the jittered running
    value and then multiplies it, capped at [MaxBackoff]. *)
Fixpoint backoff_chain (w : World) (policy : RetryPolicy) (b : Z)
    (l : list (nat * Z * Z * Z)) : Prop :=
  match l with
  | [] => True
  | (n, b0, ra, d) :: rest =>
      b0 = b /\
      if ra >? 0 then
        d = ra /\ backoff_chain w policy b rest
      else
        d = jittered w policy n b /\
        backoff_chain w policy
          (Z.min (Duration.ofQ (inject_Z b * BackoffMultiplier policy))
                 (MaxBackoff policy)) rest
  end.

(** The outcome of the last attempt in a trace. *)
Fixpoint last_attempt_from (acc : option (option Response * option error))
    (t : list event) : option (option Response * option error) :=
  match t with
  | [] => acc
  | EvAttempt _ _ resp err :: rest => last_attempt_from (Some (resp, err)) rest
  | _ :: rest => last_attempt_from acc rest
  end.

Definition last_attempt (t : list event) : option (option Response * option error) :=
  last_attempt_from None t.

(** The error that cut an execution short, if one did: a refusal by the
    limiter, a context that fired during a backoff wait, or a failing
    [GetBody]. *)
Definition interruption (t : list event) : option error :=
  match last t with
  | Some (EvLimiterWait (Some e)) => Some e
  | Some (EvCancelled e) => Some e
  | Some (EvGetBody (inl e)) => Some e
  | _ => None
  end.

(** A request body that is one reader, read by one attempt after the
    other: each attempt is handed what the attempts before it left unread,
    and reads as much of it as its round trip reads. *)
Fixpoint reader_chain (w : World) (left : string) (t : list event) : Prop :=
  match t with
  | [] => True
  | EvAttempt n s _ _ :: rest =>
      sent_body s = Some left /\
      reader_chain w (string_drop (rt_read (roundTrip w n s)) left) rest
  | _ :: rest => reader_chain w left rest
  end.

(** What such a reader still holds after the attempts of a trace. *)
Fixpoint left_after (w : World) (left : string) (t : list event) : string :=
  match t with
  | [] => left
  | EvAttempt n s _ _ :: rest =>
      left_after w (string_drop (rt_read (roundTrip w n s)) left) rest
  | _ :: rest => left_after w left rest
  end.

(** ** The statements of the design document *)

(** "Before each attempt it consults the Limiter": every attempt in the
    trace, the first and each retry, has an admission of its own. *)
Definition every_attempt_cleared (t : list event) : Prop :=
  each_attempt_cleared false t = true.

(** "The value returned to the caller is exactly the outcome of the last
    attempt performed." *)
Definition returns_last_attempt {L : Type} (out : Outcome L) : Prop :=
  last_attempt (out_trace out) = Some (out_resp out, out_err out).

(** "At most maxRetries additional attempts follow the first attempt." *)
Definition retries_bounded {L : Type} (policy : RetryPolicy) (out : Outcome L) : Prop :=
  (length (attempts (out_trace out)) <= 1 + Z.to_nat (MaxRetries policy))%nat.

(** "Exactly one attempt is performed." *)
Definition exactly_one_attempt {L : Type} (out : Outcome L) : Prop :=
  length (attempts (out_trace out)) = 1%nat.

(** "The full original body content is sent on every attempt." *)
Definition full_body_every_attempt (content : string) (t : list event) : Prop :=
  Forall (fun b => b = Some content) (sent_bodies t).

(** Retries are effectively disabled: the client was built with retries
    off, or the call's options disable them, or the client has no policy. *)
Definition retries_disabled {L : Type} (c : Client L) (opts : option RequestOptions) : Prop :=
  disableRetries c = true \/
  (exists o, opts = Some o /\ opt_DisableRetries o = true) \/
  retryPolicy c = None.

(** The two forms of Retry-After the design accepts: an integer count of
    seconds, and an HTTP-date that lies in the future. *)
Fixpoint all_digits (s : string) : bool :=
  match s with
  | EmptyString => true
  | String c rest => GoTime.is_digit c && all_digits rest
  end.

Fixpoint digits_value (acc : Z) (s : string) : Z :=
  match s with
  | EmptyString => acc
  | String c rest => digits_value (acc * 10 + GoTime.digit_val c) rest
  end.

Definition integer_seconds (s : string) : option Z :=
  if negb (String.eqb s EmptyString) && all_digits s
  then Some (digits_value 0 s * Duration.Second)
  else None.

(** A header value that begins the way a number does: with a digit, a sign
    or a period.  No HTTP-date does, it begins with the name of a day. *)
Definition begins_as_number (s : string) : bool :=
  match s with
  | EmptyString => false
  | String c _ =>
      GoTime.is_digit c || Ascii.eqb c "."%char
      || Ascii.eqb c "+"%char || Ascii.eqb c "-"%char
  end.

Definition future_http_date (w : World) (now : Z) (s : string) : option Z :=
  match parse_RFC1123 w s with
  | Some date =>
      if GoTime.Until now date >? 0 then Some (GoTime.Until now date) else None
  | None => None
  end.

Definition designed_hint (w : World) (now : Z) (s : string) : option Z :=
  match integer_seconds s with
  | Some d => Some d
  | None => future_http_date w now s
  end.

(** "The retry hint is honoured exactly when the header is an integer count
    of seconds or an HTTP-date in the future, in which case its value is the
    wait before the next attempt; any other form is ignored and the wait
    falls back to computed backoff" -- for a failed attempt whose response
    has a retryable status and carries the header. *)
Definition retry_after_as_designed (w : World) (now : Z) (policy : RetryPolicy)
    (round : nat) (backoff : Z) (resp : Response) (err : option error) : Prop :=
  let h := Header_Get (RespHeader resp) "Retry-After" in
  status_retryable policy (StatusCode resp) = true ->
  is_nil err && is_2xx (StatusCode resp) = false ->
  h <> EmptyString ->
  wait_before_retry w policy round backoff
    (snd (shouldRetry w now (Some resp) err policy)) =
  match designed_hint w now h with
  | Some d => d
  | None => jittered w policy round backoff
  end.

(** ** Example worlds *)

Module Examples.

(** Contexts: one that never fires, one that is cancelled while the executor
    waits between attempts, one whose deadline passes while the limiter
    waits. *)
Definition background : Context :=
  mkContext (fun _ => TimerFired) (fun _ => None) (fun _ _ => TimerFired).

Definition cancelled_in_backoff : Context :=
  mkContext (fun _ => TimerFired) (fun _ => None) (fun _ _ => ContextDone Canceled).

Definition expired_in_limiter : Context :=
  mkContext (fun _ => ContextDone DeadlineExceeded) (fun _ => None)
    (fun _ _ => TimerFired).

(** The one date the example world is ever asked about. *)
Definition known_dates (s : string) : option Z :=
  if String.eqb s "Wed, 21 Oct 2015 07:28:00 GMT"
  then Some (1445412480 * Duration.Second)
  else None.

(** The JSON decoder on the bodies the examples use: an empty body is
    [io.EOF], a body that opens an object decodes, anything else is a syntax
    error. *)
Definition syntax_error : error :=
  Opaque "invalid character looking for beginning of value".

Definition decode_object (body : string) (body_err : option error) : option error :=
  match body_err with
  | Some e => Some e
  | None =>
      match body with
      | EmptyString => Some EOF
      | String c _ =>
          if Ascii.eqb c "{"%char then None else Some syntax_error
      end
  end.

(** A transport that reads the whole request body and answers attempt [n]
    with [answers n]; the clock stands still and the random source yields
    zero. *)
Definition scripted (answers : nat -> error + Response) : World :=
  {| roundTrip := fun n sent =>
       mkRoundTrip (answers n)
         (match sent_body sent with
          | Some b => String.length b
          | None => O
          end);
     clock := fun _ => 0;
     limiter_clock := 0;
     rand_Float64 := fun _ => 0%Q;
     parse_RFC1123 := known_dates;
     json_Decode := decode_object;
     json_message := fun _ => EmptyString |}.

Definition answer (status : Z) (header : list (string * string)) (body : string)
    : error + Response :=
  inr (mkResponse status header body None).

(** A server that is unavailable, a server that says when to come back, a
    server whose 200 carries a page that is not JSON. *)
Definition always_503 : World := scripted (fun _ => answer 503 [] "{}").

Definition retry_after (value : string) : Response :=
  mkResponse 429 [("Retry-After", value)]%string "{}" None.

Definition always_429 (value : string) : World :=
  scripted (fun _ => inr (retry_after value)).

Definition html_200 : World := scripted (fun _ => answer 200 [] "<html>").

(** A POST built elsewhere: its body reader sits at address 0 of the heap
    and holds [content]. *)
Definition post (getBody : option (error + string)) : Request :=
  {| Method := "POST"; URL := "https://assets.example.com/api/v1/hardware";
     ReqHeader := []; ReqContext := background;
     Body := Some O; GetBody := getBody |}.

Definition get : Request :=
  {| Method := "GET"; URL := "https://assets.example.com/api/v1/hardware";
     ReqHeader := []; ReqContext := background;
     Body := None; GetBody := None |}.

(** Clients: with the default policy and no limiter; with a token bucket
    that has tokens; with a token bucket that is empty and refills once in
    ten seconds; with retries off behind that empty bucket. *)
Definition plain_client : Client TokenBucket.TokenBucketRateLimiter :=
  NewClientWithOptions None.

Definition limited_client : Client TokenBucket.TokenBucketRateLimiter :=
  NewClientWithOptions
    (Some (mkClientOptions
             (Some (TokenBucket.NewTokenBucketRateLimiter 0 10 5)) None false)).

Definition empty_bucket : TokenBucket.TokenBucketRateLimiter :=
  TokenBucket.run (TokenBucket.NewTokenBucketRateLimiter 0 (1 # 10) 1)
    [mkWaitEnv 0 (fun _ => TimerFired)].

Definition no_retry_client : Client TokenBucket.TokenBucketRateLimiter :=
  NewClientWithOptions (Some (mkClientOptions (Some empty_bucket) None true)).

Definition retries_off_client : Client TokenBucket.TokenBucketRateLimiter :=
  NewClientWithOptions (Some (mkClientOptions None None true)).

(** The POST body of the examples. *)
Definition form : string := "serial=ABC123".

(** Executions. *)
Definition retried_behind_limiter : Outcome TokenBucket.TokenBucketRateLimiter :=
  DoWithOptions limited_client always_503 [] get JSONTarget None.

Definition retried_503 : Outcome TokenBucket.TokenBucketRateLimiter :=
  DoWithOptions plain_client always_503 [] get JSONTarget None.

Definition html_page : Outcome TokenBucket.TokenBucketRateLimiter :=
  DoWithOptions plain_client html_200 [] get JSONTarget None.

Definition cancelled_between_attempts : Outcome TokenBucket.TokenBucketRateLimiter :=
  DoWithOptions plain_client always_503 [] get JSONTarget
    (Some (mkRequestOptions (Some cancelled_in_backoff) false)).

Definition post_without_GetBody : Outcome TokenBucket.TokenBucketRateLimiter :=
  DoWithOptions plain_client always_503 [form] (post None) JSONTarget None.

Definition post_with_GetBody : Outcome TokenBucket.TokenBucketRateLimiter :=
  DoWithOptions plain_client always_503 [form] (post (Some (inr form)))
    JSONTarget None.

Definition refused_with_retries_off : Outcome TokenBucket.TokenBucketRateLimiter :=
  DoWithOptions no_retry_client always_503 [] get JSONTarget
    (Some (mkRequestOptions (Some expired_in_limiter) false)).

Definition single_503 : Outcome TokenBucket.TokenBucketRateLimiter :=
  DoWithOptions retries_off_client always_503 [] get JSONTarget None.

(** A limiter call a tenth of a second after the bucket was emptied, under
    a context whose deadline passes first. *)
Definition impatient : WaitEnv :=
  mkWaitEnv 100000000 (fun _ => ContextDone DeadlineExceeded).

End Examples.

(** ** Executions, read attempt by attempt *)

(** Number, response and error of each attempt of a trace, in order. *)
Fixpoint attempt_records (t : list event)
    : list (nat * option Response * option error) :=
  match t with
  | [] => []
  | EvAttempt n _ resp err :: rest => (n, resp, err) :: attempt_records rest
  | _ :: rest => attempt_records rest
  end.

(** The outcome of attempt [n] was found eligible for a retry. *)
Definition eligible (w : World) (policy : RetryPolicy)
    (rec : nat * option Response * option error) : Prop :=
  let '(n, resp, err) := rec in
  fst (shouldRetry w (clock w n) resp err policy) = true.

(** An outcome that is a success, or a context error without response. *)
Definition terminal (rec : nat * option Response * option error) : bool :=
  let '(_, resp, err) := rec in
  match resp, err with
  | Some r, None => is_2xx (StatusCode r)
  | None, Some e => is_context_error e
  | _, _ => false
  end.

(** What was handed to the transport, attempt by attempt. *)
Fixpoint sent_requests (t : list event) : list Sent :=
  match t with
  | [] => []
  | EvAttempt _ s _ _ :: rest => s :: sent_requests rest
  | _ :: rest => sent_requests rest
  end.

(** An attempt is handed the method, URL and headers of [req]. *)
Definition same_request_line (req : Request) (s : Sent) : Prop :=
  sent_method s = Method req /\ sent_url s = URL req /\
  sent_header s = ReqHeader req.

(** A loop state that holds an [*ErrorResponse] next to its response. *)
Definition api_failed (st : LoopState) : Prop :=
  exists resp message,
    ls_resp st = Some resp /\
    ls_err st = Some (ErrorResponseError (StatusCode resp) message).

(** ** The construction of a client *)

(** [strings.HasSuffix]. *)
Definition HasSuffix (s suffix : string) : bool :=
  (String.length suffix <=? String.length s)%nat &&
  String.eqb
    (String.substring (String.length s - String.length suffix)
       (String.length suffix) s)
    suffix.

(** A [*url.URL], as far as the constructor looks into it: the path, and the
    rest of the URL as it was parsed. *)
Record url_URL : Type := mkURL {
  url_rest : string;
  url_Path : string
}.

(** The limiter and retry fields of a new client, as set further up. *)
Definition limiter_and_retry_fields {L : Type} (options : option (ClientOptions L))
    : Client L :=
  NewClientWithOptions options.

Module Construction.

(** The fields of [Client] next to those that govern retries. *)
Record Handle (L : Type) : Type := mkHandle {
  token : string;
  BaseURL : url_URL;
  executor : Client L
}.
Arguments token {L} _.
Arguments BaseURL {L} _.
Arguments executor {L} _.
Arguments mkHandle {L} _ _ _.

Section Constructors.

Context {L : Type}.

(** [url.Parse], the standard library's. *)
Variable url_Parse : string -> error + url_URL.

Definition NewClientWithOptions (baseURL tok : string)
    (options : option (ClientOptions L)) : error + Handle L :=
  if String.eqb baseURL EmptyString
  then inl (Opaque "a baseURL must be provided")
  else if String.eqb tok EmptyString
  then inl (Opaque "a token must be provided")
  else
    match url_Parse baseURL with
    | inl err => inl err
    | inr baseEndpoint =>
        let baseEndpoint :=
          if negb (HasSuffix (url_Path baseEndpoint) "/")
          then mkURL (url_rest baseEndpoint) (url_Path baseEndpoint ++ "/")
          else baseEndpoint in
        inr (mkHandle ("Bearer " ++ tok) baseEndpoint
               (limiter_and_retry_fields options))
    end.

Definition NewClient (baseURL tok : string) : error + Handle L :=
  NewClientWithOptions baseURL tok None.

(** The HTTP client is the transport of the world and has no counterpart
    in the handle; the options it is wrapped in set nothing else. *)
Definition NewClientWithHTTPClient (baseURL tok : string) : error + Handle L :=
  NewClientWithOptions baseURL tok (Some (mkClientOptions None None false)).

End Constructors.

End Construction.

(** [Do] and [DoContext]. *)
Definition Do {L : Type} `{RateLimiter L} (c : Client L) (w : World) (h : Heap)
    (req : Request) (v : Target) : Outcome L :=
  DoWithOptions c w h req v None.

Definition DoContext {L : Type} `{RateLimiter L} (c : Client L) (w : World)
    (h : Heap) (ctx : option Context) (background : Context)
    (req : Request) (v : Target) : Outcome L :=
  let ctx :=
    match ctx with
    | Some ctx => ctx
    | None => background
    end in
  DoWithOptions c w h req v (Some (mkRequestOptions (Some ctx) false)).

(** ** Further example worlds *)

Module Scenes.

(** A policy that allows no retry. *)
Definition no_budget : RetryPolicy :=
  mkRetryPolicy 0 (RetryableStatusCodes DefaultRetryPolicy)
    (InitialBackoff DefaultRetryPolicy) (MaxBackoff DefaultRetryPolicy)
    (BackoffMultiplier DefaultRetryPolicy) (Jitter DefaultRetryPolicy).

Definition no_budget_client : Client TokenBucket.TokenBucketRateLimiter :=
  mkClient None (Some no_budget) false.

(** A server that answers 200 with an empty JSON object. *)
Definition ok_200 : World := Examples.scripted (fun _ => Examples.answer 200 [] "{}").

Definition not_found : Response := mkResponse 404 [] "{}" None.

Definition page : Response := mkResponse 200 [] "<html>" None.

(** The URL parser on the one base URL of the examples. *)
Definition parse_example (s : string) : error + url_URL :=
  if String.eqb s "https://assets.example.com"
  then inr (mkURL "https://assets.example.com" EmptyString)
  else inl (Opaque "parse error").

Definition example_handle : Construction.Handle TokenBucket.TokenBucketRateLimiter :=
  Construction.mkHandle "Bearer secret"
    (mkURL "https://assets.example.com" "/")
    (limiter_and_retry_fields None).

(** Path resolution, encoding and validation for the one request of the
    examples. *)
Definition resolve_example (path : string) : error + string :=
  inr ("https://assets.example.com/" ++ path)%string.

Definition encode_example (body : string) : error + string := inr body.

Definition validate_example (method url : string) : option error := None.

End Scenes.

(** * Properties *)

(** ** The token bucket *)

Section TokenBucketFacts.

Import TokenBucket.

Lemma Sub_nonneg (now last : Z) : last <= now -> 0 <= Duration.Sub now last.
Proof. unfold Duration.Sub, Duration.minDuration, Duration.maxDuration. lia. Qed.

Lemma Seconds_nonneg (d : Z) : 0 <= d -> (0 <= Duration.Seconds d)%Q.
Proof.
  intros Hd. unfold Duration.Seconds, Qdiv.
  apply Qmult_le_0_compat.
  - unfold Qle; simpl; lia.
  - unfold Qle; simpl; lia.
Qed.

Lemma refill_tokens_eq (r : TokenBucketRateLimiter) (now : Z) :
  tokens (refill r now) = refilled_tokens r now.
Proof. reflexivity. Qed.

(** The refill never lowers the token count and keeps it in range, as long
    as the clock has not run backwards. *)
Lemma refill_range (r : TokenBucketRateLimiter) (now : Z) :
  tokens_in_range r -> rate_positive r -> lastRefillTime r <= now ->
  (tokens r <= tokens (refill r now))%Q /\ tokens_in_range (refill r now).
Proof.
  intros [H0 Hmax] Hrate Hnow.
  assert (He : (0 <= Duration.Seconds (Duration.Sub now (lastRefillTime r))
                     * tokensPerSec r)%Q).
  { apply Qmult_le_0_compat.
    - apply Seconds_nonneg, Sub_nonneg, Hnow.
    - apply Qlt_le_weak, Hrate. }
  assert (Hlow : (tokens r <= tokens (refill r now))%Q).
  { simpl. apply Q.min_glb; [exact Hmax | lra]. }
  split; [exact Hlow |].
  split.
  - eapply Qle_trans; [exact H0 | exact Hlow].
  - simpl. apply Q.le_min_l.
Qed.

Lemma Wait_bucket_unfold (r : TokenBucketRateLimiter) (env : WaitEnv) :
  Wait r env =
  let t := refilled_tokens r (we_now env) in
  let d := seconds_to_Duration ((1 - t) / tokensPerSec r) in
  if Qle_bool 1 t then
    (mkLimiter (t - 1) (maxTokens r) (tokensPerSec r) (we_now env), None, None)
  else
    match we_race env d with
    | TimerFired =>
        (mkLimiter 0 (maxTokens r) (tokensPerSec r) (we_now env), Some d, None)
    | ContextDone reason =>
        (mkLimiter t (maxTokens r) (tokensPerSec r) (we_now env), Some d, Some reason)
    end.
Proof.
  unfold Wait, TokenBucket_RateLimiter, Wait_bucket. cbv zeta.
  rewrite refill_tokens_eq.
  destruct (Qle_bool 1 (refilled_tokens r (we_now env))); [reflexivity |].
  unfold waitTime, seconds_to_Duration. rewrite refill_tokens_eq. simpl tokensPerSec.
  destruct (we_race env _); reflexivity.
Qed.


(** One call keeps the state predicate, a positive rate, and records the
    clock reading it saw. *)
Lemma Wait_step (r : TokenBucketRateLimiter) (env : WaitEnv) :
  tokens_in_range r -> rate_positive r -> lastRefillTime r <= we_now env ->
  let r' := fst (fst (Wait_bucket r env)) in
  tokens_in_range r' /\ rate_positive r' /\ lastRefillTime r' = we_now env /\
  ((tokens r' < tokens r)%Q -> snd (Wait_bucket r env) = None).
Proof.
  intros Hr Hrate Hnow.
  destruct (refill_range r (we_now env) Hr Hrate Hnow) as [Hup [H0 Hmax]].
  unfold Wait_bucket. cbv zeta.
  destruct (Qle_bool 1 (tokens (refill r (we_now env)))) eqn:Hb.
  - apply Qle_bool_iff in Hb. simpl fst. simpl snd.
    repeat split; try (unfold rate_positive; simpl; exact Hrate).
    + simpl tokens at 1. simpl in Hb. lra.
    + simpl in *. lra.
  - destruct (we_race env _); simpl fst; simpl snd.
    + repeat split; try (unfold rate_positive; simpl; exact Hrate).
      * simpl. lra.
      * simpl in *. eapply Qle_trans; [exact H0 | exact Hmax].
    + repeat split; try assumption.
      intros Hlt. lra.
Qed.

Lemma run_invariant (calls : list WaitEnv) :
  forall r : TokenBucketRateLimiter,
    tokens_in_range r -> rate_positive r -> monotonic (lastRefillTime r) calls ->
    let r' := run r calls in
    tokens_in_range r' /\ rate_positive r' /\
    (forall env, monotonic (lastRefillTime r) (calls ++ [env]) ->
                 lastRefillTime r' <= we_now env).
Proof.
  induction calls as [| e rest IH]; intros r Hr Hrate Hmono; simpl.
  - repeat split; try assumption; try apply Hr. intros env [H _]. exact H.
  - destruct Hmono as [Hnow Hrest].
    destruct (Wait_step r e Hr Hrate Hnow) as (Hr' & Hrate' & Hlast & _).
    cbv zeta in Hr', Hrate', Hlast.
    rewrite <- Hlast in Hrest.
    destruct (IH _ Hr' Hrate' Hrest) as (A & B & C).
    repeat split; try assumption; try apply A.
    intros env [_ Hm]. apply C. rewrite Hlast. exact Hm.
Qed.

Lemma New_invariant (now : Z) (requestsPerSecond : Q) (burstSize : Z) :
  let r := NewTokenBucketRateLimiter now requestsPerSecond burstSize in
  tokens_in_range r /\ rate_positive r /\ lastRefillTime r = now.
Proof.
  unfold NewTokenBucketRateLimiter, tokens_in_range, rate_positive.
  cbn [tokens maxTokens tokensPerSec lastRefillTime].
  repeat split.
  - destruct (Z.leb_spec burstSize 0); unfold Qle, defaultBurstSize; simpl; lia.
  - apply Qle_refl.
  - destruct (Qle_bool requestsPerSecond 0) eqn:Hq.
    + reflexivity.
    + apply Qnot_le_lt. intros Hle. apply Qle_bool_iff in Hle. congruence.
Qed.

(** The range of the tokens on the exact model, that is for rates that
    are numbers and arithmetic that does not round: on every state the
    limiter can reach from its constructor through any sequence of [Wait]
    calls made under a clock that does not run backwards,
    0 <= tokens <= maxTokens holds, after construction and after a further
    call whatever its outcome; and a call that leaves fewer tokens than it
    found returned success. *)
Lemma tokens_in_range_invariant
    (now : Z) (requestsPerSecond : Q) (burstSize : Z)
    (calls : list WaitEnv) (env : WaitEnv) :
  monotonic now (calls ++ [env]) ->
  let r := run (NewTokenBucketRateLimiter now requestsPerSecond burstSize) calls in
  tokens_in_range (NewTokenBucketRateLimiter now requestsPerSecond burstSize) /\
  tokens_in_range r /\
  tokens_in_range (fst (fst (Wait r env))) /\
  ((tokens (fst (fst (Wait r env))) < tokens r)%Q -> snd (Wait r env) = None).
Proof.
  intros Hmono.
  destruct (New_invariant now requestsPerSecond burstSize) as (Hr & Hrate & Hlast).
  cbv zeta in Hr, Hrate, Hlast.
  assert (Hpre : monotonic
            (lastRefillTime (NewTokenBucketRateLimiter now requestsPerSecond burstSize))
            calls).
  { rewrite Hlast. clear - Hmono. revert now Hmono.
    induction calls as [| e rest IH]; intros now Hm; simpl in *; [exact I |].
    destruct Hm as [H1 H2]. split; [exact H1 | apply IH, H2]. }
  destruct (run_invariant calls _ Hr Hrate Hpre) as (A & B & C).
  cbv zeta in A, B, C.
  assert (Hnow : lastRefillTime
            (run (NewTokenBucketRateLimiter now requestsPerSecond burstSize) calls)
          <= we_now env).
  { apply C. rewrite Hlast. exact Hmono. }
  destruct (Wait_step _ env A B Hnow) as (A' & _ & _ & D).
  cbv zeta. split; [exact Hr |]. split; [exact A |]. split; [exact A' | exact D].
Qed.

End TokenBucketFacts.

(** ** The retry loop *)

(** The loop function runs as the relation says. *)
Lemma retry_loop_run (w : World) (ctx : Context) (policy : RetryPolicy)
    (req : Request) (v : Target) (fuel : nat) :
  forall (retries : nat) (st : LoopState),
    loop_run w ctx policy req v fuel retries st
      (retry_loop w ctx policy req v fuel retries st).
Proof.
  induction fuel as [| fuel IH]; intros retries st; simpl.
  - apply run_exhausted.
  - destruct (shouldRetry w (clock w retries) (ls_resp st) (ls_err st) policy)
      as [should ra] eqn:Hs.
    destruct should; simpl.
    + destruct (done_in_backoff ctx retries _) as [| e] eqn:Hrace.
      * destruct (rebuild (ls_heap st) req ctx) as [e | [h retryReq]] eqn:Hb.
        -- assert (Hg : GetBody req = Some (inl e)).
           { unfold rebuild in Hb. destruct (GetBody req) as [[e' | c] |];
               [congruence | | discriminate].
             destruct (alloc (ls_heap st) c). discriminate. }
           unfold getbody_events. rewrite Hg.
           eapply run_getbody_failed; eassumption.
        -- eapply run_retry; try eassumption. apply IH.
      * eapply run_cancelled; eassumption.
    + eapply run_not_eligible; eassumption.
Qed.

(** ** The three ways through [DoWithOptions] *)

Section ExecutorFacts.

Context {L : Type} `{RateLimiter L}.

Lemma DoWithOptions_refused (c : Client L) (w : World) (h : Heap) (req : Request)
    (v : Target) (opts : option RequestOptions) (e : error) :
  limiter_answer c w (effective_context req opts) = Some e ->
  let out := DoWithOptions c w h req v opts in
  out_trace out = [EvLimiterWait (Some e)] /\
  out_resp out = None /\ out_err out = Some e.
Proof.
  unfold limiter_answer, DoWithOptions. cbv zeta.
  destruct (rateLimiter c) as [l |]; [| discriminate].
  destruct (Wait l _) as [[l' d] err]. simpl. intros ->. simpl. auto.
Qed.

Lemma DoWithOptions_single (c : Client L) (w : World) (h : Heap) (req : Request)
    (v : Target) (opts : option RequestOptions) :
  limiter_answer c w (effective_context req opts) = None ->
  effective_policy c opts = None ->
  let out := DoWithOptions c w h req v opts in
  let a := first_attempt w h req v opts in
  out_trace out =
    limiter_events c w (effective_context req opts) ++ [attempt_event 0 a] /\
  out_resp out = at_resp a /\ out_err out = at_err a.
Proof.
  unfold limiter_answer, limiter_events, first_attempt, DoWithOptions. cbv zeta.
  intros Hl Hp. rewrite Hp.
  destruct (rateLimiter c) as [l |].
  - destruct (Wait l _) as [[l' d] err]. simpl in *. subst err. simpl. auto.
  - simpl. auto.
Qed.

Lemma DoWithOptions_retrying (c : Client L) (w : World) (h : Heap) (req : Request)
    (v : Target) (opts : option RequestOptions) (policy : RetryPolicy) :
  limiter_answer c w (effective_context req opts) = None ->
  effective_policy c opts = Some policy ->
  let out := DoWithOptions c w h req v opts in
  let ctx := effective_context req opts in
  let st :=
    retry_loop w ctx policy (WithContext req ctx) v
      (Z.to_nat (MaxRetries policy)) 0 (loop_start c w h req v opts policy) in
  out_trace out = ls_trace st /\
  out_resp out = ls_resp st /\ out_err out = ls_err st.
Proof.
  unfold limiter_answer, loop_start, limiter_events, first_attempt, DoWithOptions.
  cbv zeta. intros Hl Hp. rewrite Hp.
  destruct (rateLimiter c) as [l |].
  - destruct (Wait l _) as [[l' d] err]. simpl in *. subst err. simpl. auto.
  - simpl. auto.
Qed.

(** ** Traces of the retry loop *)

Lemma attempts_app (t u : list event) : attempts (t ++ u) = attempts t ++ attempts u.
Proof. apply List.filter_app. Qed.

Lemma limiter_waits_app (t u : list event) :
  limiter_waits (t ++ u) = limiter_waits t ++ limiter_waits u.
Proof. apply List.filter_app. Qed.

Lemma getbody_events_quiet (req : Request) :
  attempts (getbody_events req) = [] /\ limiter_waits (getbody_events req) = [].
Proof. unfold getbody_events. destruct (GetBody req); split; reflexivity. Qed.

(** The loop only appends to the trace; what it appends holds no limiter
    call and at most one attempt per turn. *)
Lemma loop_run_appends (w : World) (ctx : Context) (policy : RetryPolicy)
    (req : Request) (v : Target) (fuel retries : nat) (st st' : LoopState) :
  loop_run w ctx policy req v fuel retries st st' ->
  exists suffix,
    ls_trace st' = ls_trace st ++ suffix /\
    limiter_waits suffix = [] /\
    (length (attempts suffix) <= fuel)%nat.
Proof.
  intros Hrun.
  induction Hrun as
    [ retries st
    | fuel retries st ra Hs
    | fuel retries st ra e Hs Hrace
    | fuel retries st ra e Hs Hrace Hg
    | fuel retries st st' ra h retryReq Hs Hrace Hb Hrun IH ].
  - exists []. rewrite app_nil_r. simpl. auto.
  - exists []. rewrite app_nil_r. simpl. split; [reflexivity | split; [reflexivity | lia]].
  - eexists. simpl ls_trace. rewrite <- app_assoc. split; [reflexivity |].
    simpl. split; [reflexivity | lia].
  - eexists. simpl ls_trace. rewrite <- app_assoc. split; [reflexivity |].
    simpl. split; [reflexivity | lia].
  - destruct IH as (suffix & Ht & Hl & Ha).
    cbv zeta in Ht. simpl ls_trace in Ht.
    destruct (getbody_events_quiet req) as [Ga Gl].
    eexists. split.
    + rewrite Ht. rewrite <- !app_assoc. reflexivity.
    + split.
      * rewrite !limiter_waits_app, Gl, Hl. reflexivity.
      * rewrite !attempts_app, Ga. simpl. lia.
Qed.

Lemma attempts_follow_once_cleared (t : list event) :
  attempts_follow_admission true t = true.
Proof.
  induction t as [| e t IH]; simpl; [reflexivity |].
  destruct e as [[err |] | | | |]; simpl; exact IH.
Qed.

(** C1, as the code has it. With a rate limiter configured, an execution
    calls the limiter's [Wait] exactly once, as the first thing it does; a
    refusal ends the execution with that error and without any attempt;
    every attempt, the first and the retries alike, comes after that one
    call has returned without error, and no retry is preceded by a call of
    its own. *)
Theorem limiter_consulted_once
    (l : L) (policy : option RetryPolicy) (disable : bool)
    (w : World) (h : Heap) (req : Request) (v : Target)
    (opts : option RequestOptions) :
  let c := mkClient (Some l) policy disable in
  let out := DoWithOptions c w h req v opts in
  let answer := snd (Wait l (limiter_env w (effective_context req opts))) in
  exists rest,
    out_trace out = EvLimiterWait answer :: rest /\
    limiter_waits rest = [] /\
    attempts_follow_admission false (out_trace out) = true /\
    (forall e, answer = Some e ->
               rest = [] /\ out_resp out = None /\ out_err out = Some e).
Proof.
  cbv zeta.
  set (c := mkClient (Some l) policy disable).
  set (ctx := effective_context req opts).
  destruct (snd (Wait l (limiter_env w ctx))) as [e |] eqn:Hans.
  - assert (Hl : limiter_answer c w ctx = Some e) by exact Hans.
    destruct (DoWithOptions_refused c w h req v opts e Hl) as (Ht & Hr & He).
    exists []. rewrite Ht. repeat split; auto. congruence.
  - assert (Hl : limiter_answer c w ctx = None) by exact Hans.
    assert (Hev : limiter_events c w ctx = [EvLimiterWait None]).
    { unfold limiter_events. simpl. fold ctx. rewrite Hans. reflexivity. }
    destruct (effective_policy c opts) as [p |] eqn:Hp.
    + destruct (DoWithOptions_retrying c w h req v opts p Hl Hp) as (Ht & _).
      cbv zeta in Ht. fold ctx in Ht.
      destruct (loop_run_appends _ _ _ _ _ _ _ _ _
                  (retry_loop_run w ctx p (WithContext req ctx) v
                     (Z.to_nat (MaxRetries p)) 0 (loop_start c w h req v opts p)))
        as (suffix & Hs & Hq & _).
      rewrite Hs in Ht. unfold loop_start in Ht. cbn [ls_trace] in Ht.
      fold ctx in Ht. rewrite Hev in Ht. simpl in Ht.
      eexists. split; [exact Ht |]. split.
      * simpl. exact Hq.
      * split; [| intros e He; discriminate].
        rewrite Ht. simpl. apply attempts_follow_once_cleared.
    + destruct (DoWithOptions_single c w h req v opts Hl Hp) as (Ht & _).
      cbv zeta in Ht. fold ctx in Ht. rewrite Hev in Ht. simpl in Ht.
      eexists. split; [exact Ht |]. split; [reflexivity |].
      split; [| intros e He; discriminate].
      rewrite Ht. reflexivity.
Qed.

(** ** What the loop returns *)

Lemma last_attempt_from_snoc (t : list event) (ev : event) :
  forall acc,
    last_attempt_from acc (t ++ [ev]) =
    match ev with
    | EvAttempt _ _ resp err => Some (resp, err)
    | _ => last_attempt_from acc t
    end.
Proof.
  induction t as [| x t IH]; intros acc; simpl.
  - destruct ev; reflexivity.
  - destruct x; rewrite IH; destruct ev; reflexivity.
Qed.

Lemma interruption_snoc (t : list event) (ev : event) :
  interruption (t ++ [ev]) =
  match ev with
  | EvLimiterWait (Some e) => Some e
  | EvCancelled e => Some e
  | EvGetBody (inl e) => Some e
  | _ => None
  end.
Proof. unfold interruption. rewrite last_snoc. reflexivity. Qed.

(** A loop state whose trace ends with the attempt whose outcome it holds. *)
Lemma loop_run_returns (w : World) (ctx : Context) (policy : RetryPolicy)
    (req : Request) (v : Target) (fuel retries : nat) (st st' : LoopState) :
  loop_run w ctx policy req v fuel retries st st' ->
  (exists t n s, ls_trace st = t ++ [EvAttempt n s (ls_resp st) (ls_err st)]) ->
  exists err,
    last_attempt (ls_trace st') = Some (ls_resp st', err) /\
    ls_err st' =
      match interruption (ls_trace st') with
      | Some e => Some e
      | None => err
      end.
Proof.
  intros Hrun.
  induction Hrun as
    [ retries st
    | fuel retries st ra Hs
    | fuel retries st ra e Hs Hrace
    | fuel retries st ra e Hs Hrace Hg
    | fuel retries st st' ra h retryReq Hs Hrace Hb Hrun IH ];
    intros (t & n & s & Ht).
  - exists (ls_err st). rewrite Ht. unfold last_attempt.
    rewrite last_attempt_from_snoc, interruption_snoc. auto.
  - exists (ls_err st). rewrite Ht. unfold last_attempt.
    rewrite last_attempt_from_snoc, interruption_snoc. auto.
  - exists (ls_err st). cbn [ls_trace ls_resp ls_err]. unfold last_attempt.
    rewrite interruption_snoc, !last_attempt_from_snoc, Ht, last_attempt_from_snoc.
    auto.
  - exists (ls_err st). cbn [ls_trace ls_resp ls_err]. unfold last_attempt.
    rewrite interruption_snoc, !last_attempt_from_snoc, Ht, last_attempt_from_snoc.
    auto.
  - apply IH. cbv zeta. cbn [ls_trace ls_resp ls_err].
    eexists _, _, _. unfold attempt_event. reflexivity.
Qed.

(** ** What the loop sends *)

Lemma sent_bodies_app (t u : list event) :
  sent_bodies (t ++ u) = sent_bodies t ++ sent_bodies u.
Proof.
  induction t as [| x t IH]; simpl; [reflexivity |].
  destruct x; simpl; rewrite IH; reflexivity.
Qed.

Lemma doOnce_sent (w : World) (ctx : Context) (n : nat) (h : Heap)
    (req : Request) (v : Target) :
  at_sent (doOnce w ctx n h req v) = snapshot h req.
Proof.
  unfold doOnce. cbv zeta.
  destruct (rt_result _) as [e | resp].
  - destruct (done_after_send ctx n); reflexivity.
  - destruct (_ || _); [reflexivity |].
    destruct v; reflexivity.
Qed.

Lemma unread_alloc (h : Heap) (content : string) :
  unread (fst (alloc h content)) (snd (alloc h content)) = content.
Proof.
  unfold unread, alloc. cbn [fst snd].
  replace ((h ++ [content]) !! length h) with (Some content); [reflexivity |].
  symmetry. apply list_lookup_middle. reflexivity.
Qed.

Lemma loop_run_sends (w : World) (ctx : Context) (policy : RetryPolicy)
    (req : Request) (v : Target) (fuel retries : nat) (st st' : LoopState)
    (content : string) :
  GetBody req = Some (inr content) ->
  loop_run w ctx policy req v fuel retries st st' ->
  full_body_every_attempt content (ls_trace st) ->
  full_body_every_attempt content (ls_trace st').
Proof.
  intros Hget Hrun. unfold full_body_every_attempt.
  induction Hrun as
    [ retries st
    | fuel retries st ra Hs
    | fuel retries st ra e Hs Hrace
    | fuel retries st ra e Hs Hrace Hg
    | fuel retries st st' ra h retryReq Hs Hrace Hb Hrun IH ];
    intros Hall; try exact Hall.
  - cbn [ls_trace]. rewrite !sent_bodies_app. simpl. rewrite !app_nil_r. exact Hall.
  - cbn [ls_trace]. rewrite !sent_bodies_app. simpl. rewrite !app_nil_r. exact Hall.
  - apply IH. cbv zeta. cbn [ls_trace].
    unfold rebuild in Hb. rewrite Hget in Hb.
    pose proof (unread_alloc (ls_heap st) content) as Hu.
    destruct (alloc (ls_heap st) content) as [h' a] eqn:Ha.
    injection Hb as <- <-. simpl in Hu.
    unfold getbody_events. rewrite Hget.
    rewrite !sent_bodies_app. simpl. rewrite !app_nil_r.
    apply Forall_app. split; [exact Hall |].
    constructor; [| constructor].
    rewrite doOnce_sent. unfold snapshot. simpl. rewrite Hu. reflexivity.
Qed.

(** ** How the loop backs off *)

Lemma sleeps_app (t u : list event) : sleeps (t ++ u) = sleeps t ++ sleeps u.
Proof.
  induction t as [| x t IH]; simpl; [reflexivity |].
  destruct x; simpl; rewrite IH; reflexivity.
Qed.

Lemma sleeps_getbody (req : Request) : sleeps (getbody_events req) = [].
Proof. unfold getbody_events. destruct (GetBody req); reflexivity. Qed.

Lemma increase_min (policy : RetryPolicy) (b : Z) :
  increase policy b =
  Z.min (Duration.ofQ (inject_Z b * BackoffMultiplier policy)) (MaxBackoff policy).
Proof.
  unfold increase. cbv zeta.
  destruct (Z.gtb_spec (Duration.ofQ (inject_Z b * BackoffMultiplier policy))
              (MaxBackoff policy)); lia.
Qed.

Lemma loop_run_backs_off (w : World) (ctx : Context) (policy : RetryPolicy)
    (req : Request) (v : Target) (fuel retries : nat) (st st' : LoopState) :
  loop_run w ctx policy req v fuel retries st st' ->
  exists waits,
    sleeps (ls_trace st') = sleeps (ls_trace st) ++ waits /\
    backoff_chain w policy (ls_backoff st) waits.
Proof.
  intros Hrun.
  induction Hrun as
    [ retries st
    | fuel retries st ra Hs
    | fuel retries st ra e Hs Hrace
    | fuel retries st ra e Hs Hrace Hg
    | fuel retries st st' ra h retryReq Hs Hrace Hb Hrun IH ].
  - exists []. rewrite app_nil_r. simpl. auto.
  - exists []. rewrite app_nil_r. simpl. auto.
  - eexists. cbn [ls_trace]. rewrite !sleeps_app. simpl. rewrite app_nil_r.
    split; [reflexivity |]. simpl. split; [reflexivity |].
    unfold wait_before_retry. destruct (ra >? 0); auto.
  - eexists. cbn [ls_trace]. rewrite !sleeps_app. simpl. rewrite app_nil_r.
    split; [reflexivity |]. simpl. split; [reflexivity |].
    unfold wait_before_retry. destruct (ra >? 0); auto.
  - destruct IH as (waits & Hw & Hc).
    cbv zeta in Hw, Hc. cbn [ls_trace ls_backoff] in Hw, Hc.
    rewrite !sleeps_app, sleeps_getbody in Hw. simpl in Hw.
    rewrite !app_nil_r in Hw. rewrite <- app_assoc in Hw.
    eexists. split; [exact Hw |].
    simpl. split; [reflexivity |].
    unfold wait_before_retry. rewrite <- increase_min.
    destruct (ra >? 0); auto.
Qed.

(** ** The executor *)

Lemma limiter_events_quiet (c : Client L) (w : World) (ctx : Context) :
  attempts (limiter_events c w ctx) = [] /\
  sent_bodies (limiter_events c w ctx) = [] /\
  sleeps (limiter_events c w ctx) = [].
Proof. unfold limiter_events. destruct (rateLimiter c); repeat split; reflexivity. Qed.

Lemma retries_disabled_policy (c : Client L) (opts : option RequestOptions) :
  retries_disabled c opts <-> effective_policy c opts = None.
Proof.
  unfold retries_disabled, effective_policy. cbv zeta. split.
  - intros [Hd | [(o & -> & Ho) | Hp]].
    + rewrite Hd. destruct opts as [o |]; [destruct (opt_DisableRetries o) |];
        reflexivity.
    + rewrite Ho. reflexivity.
    + rewrite Hp. destruct opts as [o |];
        [destruct (opt_DisableRetries o) |]; destruct (disableRetries c); reflexivity.
  - destruct opts as [o |].
    + destruct (opt_DisableRetries o) eqn:Ho.
      * intros _. right. left. exists o. auto.
      * destruct (disableRetries c); [left; reflexivity | right; right; assumption].
    + destruct (disableRetries c); [left; reflexivity | right; right; assumption].
Qed.

(** C7, as the code has it. With retries enabled, an execution makes at
    most one attempt plus [MaxRetries] more. When nothing cuts it short, the
    pair it returns is the outcome of the last attempt it made. When the
    limiter refuses the call, the context fires during a wait between
    attempts, or [GetBody] fails, it returns that error instead, next to the
    response of the last attempt made, if any. *)
Theorem retrying_returns
    (c : Client L) (w : World) (h : Heap) (req : Request) (v : Target)
    (opts : option RequestOptions) (policy : RetryPolicy) :
  effective_policy c opts = Some policy ->
  let out := DoWithOptions c w h req v opts in
  retries_bounded policy out /\
  (interruption (out_trace out) = None -> returns_last_attempt out) /\
  (forall e, interruption (out_trace out) = Some e ->
             out_err out = Some e /\
             out_resp out =
               match last_attempt (out_trace out) with
               | Some (resp, _) => resp
               | None => None
               end).
Proof.
  intros Hp. cbv zeta. unfold retries_bounded, returns_last_attempt.
  set (ctx := effective_context req opts).
  destruct (limiter_answer c w ctx) as [e |] eqn:Hl.
  - destruct (DoWithOptions_refused c w h req v opts e Hl) as (Ht & Hr & He).
    rewrite Ht, Hr, He. simpl. split; [lia |].
    split; [discriminate |].
    intros e' He'. unfold interruption in He'. simpl in He'. split; congruence.
  - destruct (DoWithOptions_retrying c w h req v opts policy Hl Hp) as (Ht & Hr & He).
    cbv zeta in Ht, Hr, He. fold ctx in Ht, Hr, He.
    pose proof (retry_loop_run w ctx policy (WithContext req ctx) v
                  (Z.to_nat (MaxRetries policy)) 0
                  (loop_start c w h req v opts policy)) as Hrun.
    rewrite Ht, Hr, He.
    destruct (loop_run_appends _ _ _ _ _ _ _ _ _ Hrun) as (suffix & Hs & _ & Ha).
    destruct (loop_run_returns _ _ _ _ _ _ _ _ _ Hrun) as (err & Hlast & Herr).
    { unfold loop_start. cbn [ls_trace ls_resp ls_err].
      eexists _, _, _. unfold attempt_event. reflexivity. }
    split.
    + rewrite Hs. unfold loop_start. cbn [ls_trace]. fold ctx.
      rewrite !attempts_app.
      destruct (limiter_events_quiet c w ctx) as (-> & _ & _).
      simpl. lia.
    + rewrite Hlast, Herr. split.
      * intros ->. reflexivity.
      * intros e ->. auto.
Qed.

(** C9, as the code has it. When retries are off for a call -- the client
    was built with retries off, the call's options disable them, or the
    client has no policy -- and the limiter, if there is one, admits the
    call, exactly one attempt is made and its outcome is returned as it is,
    failed or not. When the limiter refuses the call, no attempt is made and
    the limiter's error is returned. *)
Theorem single_attempt_when_disabled
    (c : Client L) (w : World) (h : Heap) (req : Request) (v : Target)
    (opts : option RequestOptions) :
  retries_disabled c opts ->
  let out := DoWithOptions c w h req v opts in
  let a := first_attempt w h req v opts in
  match limiter_answer c w (effective_context req opts) with
  | None =>
      exactly_one_attempt out /\ returns_last_attempt out /\
      out_resp out = at_resp a /\ out_err out = at_err a
  | Some e =>
      attempts (out_trace out) = [] /\
      out_resp out = None /\ out_err out = Some e
  end.
Proof.
  intros Hd. apply retries_disabled_policy in Hd. cbv zeta.
  unfold exactly_one_attempt, returns_last_attempt.
  set (ctx := effective_context req opts).
  destruct (limiter_answer c w ctx) as [e |] eqn:Hl.
  - destruct (DoWithOptions_refused c w h req v opts e Hl) as (Ht & Hr & He).
    rewrite Ht, Hr, He. auto.
  - destruct (DoWithOptions_single c w h req v opts Hl Hd) as (Ht & Hr & He).
    cbv zeta in Ht, Hr, He. fold ctx in Ht.
    rewrite Ht, Hr, He. rewrite attempts_app.
    destruct (limiter_events_quiet c w ctx) as (-> & _ & _).
    unfold last_attempt, attempt_event. rewrite last_attempt_from_snoc.
    auto.
Qed.


(** A request without [GetBody] goes through the loop with the one reader
    it came with. *)
Lemma string_drop_empty (n : nat) : string_drop n EmptyString = EmptyString.
Proof. destruct n; reflexivity. Qed.

Lemma unread_consume (h : Heap) (a n : nat) :
  unread (consume h a n) a = string_drop n (unread h a).
Proof.
  unfold consume. set (x := string_drop n (unread h a)).
  destruct (Nat.lt_ge_cases a (length h)) as [Hlt | Hge].
  - assert (Hin : <[a := x]> h !! a = Some x)
      by (apply list_lookup_insert_eq; exact Hlt).
    unfold unread at 1. rewrite Hin. reflexivity.
  - assert (Hsame : <[a := x]> h = h) by (apply list_insert_ge; exact Hge).
    rewrite Hsame. subst x.
    assert (Hnone : h !! a = None) by (apply lookup_ge_None; exact Hge).
    unfold unread. rewrite Hnone. simpl. symmetry. apply string_drop_empty.
Qed.

Lemma doOnce_heap (w : World) (ctx : Context) (n : nat) (h : Heap)
    (req : Request) (v : Target) :
  at_heap (doOnce w ctx n h req v) =
  match Body req with
  | Some a => consume h a (rt_read (roundTrip w n (snapshot h req)))
  | None => h
  end.
Proof.
  unfold doOnce. cbv zeta.
  destruct (rt_result _) as [e | resp].
  - destruct (done_after_send ctx n); reflexivity.
  - destruct (_ || _); [reflexivity |].
    destruct v; reflexivity.
Qed.

Lemma reader_chain_app (w : World) (t u : list event) :
  forall left : string,
    reader_chain w left t ->
    reader_chain w (left_after w left t) u ->
    reader_chain w left (t ++ u).
Proof.
  induction t as [| ev t IH]; intros left Ht Hu; simpl in *; [exact Hu |].
  destruct ev; try (apply IH; assumption).
  destruct Ht as [Hs Ht]. split; [exact Hs | apply IH; assumption].
Qed.

Lemma left_after_app (w : World) (t u : list event) :
  forall left : string,
    left_after w left (t ++ u) = left_after w (left_after w left t) u.
Proof.
  induction t as [| ev t IH]; intros left; simpl; [reflexivity |].
  destruct ev; apply IH.
Qed.

Lemma attempt_reads_on (w : World) (ctx : Context) (n : nat) (h : Heap)
    (req : Request) (v : Target) (a : nat) :
  Body req = Some a ->
  let att := doOnce w ctx n h req v in
  sent_body (at_sent att) = Some (unread h a) /\
  unread (at_heap att) a =
    string_drop (rt_read (roundTrip w n (at_sent att))) (unread h a).
Proof.
  intros Hbody. cbv zeta. rewrite doOnce_sent, doOnce_heap, Hbody.
  unfold snapshot at 1. cbn [sent_body]. rewrite Hbody.
  split; [reflexivity | apply unread_consume].
Qed.

Lemma loop_run_reuses_reader (w : World) (ctx : Context) (policy : RetryPolicy)
    (req : Request) (v : Target) (fuel retries : nat) (st st' : LoopState)
    (a : nat) (left : string) :
  Body req = Some a -> GetBody req = None ->
  loop_run w ctx policy req v fuel retries st st' ->
  reader_chain w left (ls_trace st) /\
  unread (ls_heap st) a = left_after w left (ls_trace st) ->
  reader_chain w left (ls_trace st') /\
  unread (ls_heap st') a = left_after w left (ls_trace st').
Proof.
  intros Hbody Hget Hrun.
  induction Hrun as
    [ retries st
    | fuel retries st ra Hs
    | fuel retries st ra e Hs Hrace
    | fuel retries st ra e Hs Hrace Hg
    | fuel retries st st' ra h retryReq Hs Hrace Hb Hrun IH ];
    intros [Hchain Hleft]; try (split; assumption).
  - cbn [ls_trace ls_heap]. split.
    + apply reader_chain_app; [apply reader_chain_app |]; simpl; auto.
    + rewrite !left_after_app. simpl. exact Hleft.
  - congruence.
  - apply IH. cbv zeta. cbn [ls_trace ls_heap].
    unfold rebuild in Hb. rewrite Hget in Hb. injection Hb as <- <-.
    unfold getbody_events. rewrite Hget. rewrite app_nil_r.
    destruct (attempt_reads_on w ctx (S retries) (ls_heap st) (Clone req ctx) v a Hbody)
      as [Hsent Hheap].
    cbv zeta in Hsent, Hheap.
    split.
    + apply reader_chain_app; [apply reader_chain_app |].
      * exact Hchain.
      * simpl. exact I.
      * rewrite left_after_app. cbn [left_after]. cbn [reader_chain attempt_event].
        rewrite <- Hleft. split; [exact Hsent | exact I].
    + rewrite !left_after_app. cbn [left_after attempt_event].
      rewrite <- Hleft. exact Hheap.
Qed.

(** A request that [newRequestWithContext] builds around a body reads from
    a reader holding the encoded bytes and has a [GetBody] that yields those
    bytes again. *)
Lemma newRequestWithContext_GetBody
    (V : Type) (json_Encode : V -> error + string)
    (BaseURL_Parse : string -> error + string)
    (http_validate : string -> string -> option error) (token : string)
    (h h' : Heap) (ctx : Context) (method urlStr : string) (b : V) (req : Request) :
  newRequestWithContext V json_Encode BaseURL_Parse http_validate token
    h ctx method urlStr (Some b) = (h', inr req) ->
  exists a content,
    json_Encode b = inr content /\
    Body req = Some a /\ unread h' a = content /\
    GetBody req = Some (inr content).
Proof.
  unfold newRequestWithContext.
  destruct (BaseURL_Parse _) as [e | u]; [discriminate |].
  destruct (json_Encode b) as [e | content]; [discriminate |].
  destruct (http_validate method u); [discriminate |].
  pose proof (unread_alloc h content) as Hu.
  destruct (alloc h content) as [h1 a]. simpl in Hu.
  intros Heq. injection Heq as <- <-. simpl.
  exists a, content. auto.
Qed.

(** C8, as the code has it. When the request has a [GetBody] that yields
    the bytes its body reader holds, every attempt of an execution, the first
    and each retry, is handed a body reader holding all of those bytes; the
    retries get theirs from [GetBody]. The requests that
    [newRequestWithContext] builds around a body are of that kind. When the
    request has a body but no [GetBody], every attempt is handed the one
    reader the request came with: the first attempt finds in it what the
    caller put there, and each retry what the attempts before it left
    unread. *)
Theorem body_replayed_from_GetBody :
  (forall (c : Client L) (w : World) (h : Heap) (req : Request) (v : Target)
          (opts : option RequestOptions) (a : nat) (content : string),
      Body req = Some a -> unread h a = content ->
      GetBody req = Some (inr content) ->
      full_body_every_attempt content
        (out_trace (DoWithOptions c w h req v opts))) /\
  (forall (V : Type) (json_Encode : V -> error + string)
          (BaseURL_Parse : string -> error + string)
          (http_validate : string -> string -> option error) (token : string)
          (h h' : Heap) (ctx : Context) (method urlStr : string) (b : V)
          (req : Request),
      newRequestWithContext V json_Encode BaseURL_Parse http_validate token
        h ctx method urlStr (Some b) = (h', inr req) ->
      exists content,
        json_Encode b = inr content /\
        forall (c : Client L) (w : World) (v : Target)
               (opts : option RequestOptions),
          full_body_every_attempt content
            (out_trace (DoWithOptions c w h' req v opts))) /\
  (forall (c : Client L) (w : World) (h : Heap) (req : Request) (v : Target)
          (opts : option RequestOptions) (a : nat),
      Body req = Some a -> GetBody req = None ->
      reader_chain w (unread h a)
        (out_trace (DoWithOptions c w h req v opts))).
Proof.
  assert (Hmain :
    forall (c : Client L) (w : World) (h : Heap) (req : Request) (v : Target)
           (opts : option RequestOptions) (a : nat) (content : string),
      Body req = Some a -> unread h a = content ->
      GetBody req = Some (inr content) ->
      full_body_every_attempt content
        (out_trace (DoWithOptions c w h req v opts))).
  { intros c w h req v opts a content Hbody Hunread Hget.
    set (ctx := effective_context req opts).
    assert (Hfirst : full_body_every_attempt content
              (limiter_events c w ctx
               ++ [attempt_event 0 (first_attempt w h req v opts)])).
    { unfold full_body_every_attempt. rewrite sent_bodies_app.
      destruct (limiter_events_quiet c w ctx) as (_ & -> & _).
      simpl. constructor; [| constructor].
      unfold first_attempt. cbv zeta. rewrite doOnce_sent.
      unfold snapshot, WithContext. simpl. rewrite Hbody, Hunread. reflexivity. }
    destruct (limiter_answer c w ctx) as [e |] eqn:Hl.
    - destruct (DoWithOptions_refused c w h req v opts e Hl) as (Ht & _).
      rewrite Ht. constructor.
    - destruct (effective_policy c opts) as [policy |] eqn:Hp.
      + destruct (DoWithOptions_retrying c w h req v opts policy Hl Hp) as (Ht & _).
        cbv zeta in Ht. fold ctx in Ht. rewrite Ht.
        eapply loop_run_sends; [| apply retry_loop_run |].
        * exact Hget.
        * exact Hfirst.
      + destruct (DoWithOptions_single c w h req v opts Hl Hp) as (Ht & _).
        cbv zeta in Ht. fold ctx in Ht. rewrite Ht. exact Hfirst. }
  split; [exact Hmain |]. split.
  - intros V json_Encode BaseURL_Parse http_validate token h h' ctx method urlStr
      b req Hnew.
    destruct (newRequestWithContext_GetBody _ _ _ _ _ _ _ _ _ _ _ _ Hnew)
      as (a & content & Henc & Hbody & Hunread & Hget).
    exists content. split; [exact Henc |].
    intros c w v opts. eapply Hmain; eassumption.
  - intros c w h req v opts a Hbody Hget.
    set (ctx := effective_context req opts).
    set (first := limiter_events c w ctx
                  ++ [attempt_event 0 (first_attempt w h req v opts)]).
    assert (Hquiet : forall left,
              reader_chain w left (limiter_events c w ctx) /\
              left_after w left (limiter_events c w ctx) = left).
    { intros left. unfold limiter_events.
      destruct (rateLimiter c); simpl; auto. }
    assert (Hfirst :
      reader_chain w (unread h a) first /\
      unread (at_heap (first_attempt w h req v opts)) a =
        left_after w (unread h a) first).
    { destruct (attempt_reads_on w ctx 0 h (WithContext req ctx) v a Hbody)
        as [Hsent Hheap].
      cbv zeta in Hsent, Hheap. fold ctx in Hsent, Hheap.
      destruct (Hquiet (unread h a)) as [Hq Hl].
      subst first. split.
      - apply reader_chain_app; [exact Hq |]. rewrite Hl.
        cbn [reader_chain attempt_event]. split; [exact Hsent | exact I].
      - rewrite left_after_app, Hl. cbn [left_after attempt_event].
        exact Hheap. }
    destruct (limiter_answer c w ctx) as [e |] eqn:Hl.
    + destruct (DoWithOptions_refused c w h req v opts e Hl) as (Ht & _).
      rewrite Ht. simpl. exact I.
    + destruct (effective_policy c opts) as [policy |] eqn:Hp.
      * destruct (DoWithOptions_retrying c w h req v opts policy Hl Hp) as (Ht & _).
        cbv zeta in Ht. fold ctx in Ht. rewrite Ht.
        eapply (loop_run_reuses_reader w ctx policy (WithContext req ctx) v
                  _ _ _ _ a (unread h a) Hbody Hget);
          [apply retry_loop_run | exact Hfirst].
      * destruct (DoWithOptions_single c w h req v opts Hl Hp) as (Ht & _).
        cbv zeta in Ht. fold ctx in Ht. rewrite Ht. exact (proj1 Hfirst).
Qed.

End ExecutorFacts.

(** ** Retry eligibility *)

Lemma shouldRetry_transport_error (w : World) (now : Z) (policy : RetryPolicy)
    (e : error) :
  shouldRetry w now None (Some e) policy = (negb (is_context_error e), 0).
Proof.
  unfold shouldRetry. simpl. destruct (is_context_error e); reflexivity.
Qed.

(** An attempt whose round trip fails returns no response and an error:
    the context's when the context is done, else the transport's. *)
Lemma doOnce_transport_error (w : World) (ctx : Context) (n : nat) (h : Heap)
    (req : Request) (v : Target) (e : error) :
  rt_result (roundTrip w n (snapshot h req)) = inl e ->
  at_resp (doOnce w ctx n h req v) = None /\
  at_err (doOnce w ctx n h req v) =
    Some (match done_after_send ctx n with
          | Some ctx_err => ctx_err
          | None => e
          end).
Proof.
  intros Hrt. unfold doOnce. cbv zeta. rewrite Hrt.
  destruct (done_after_send ctx n); simpl; auto.
Qed.

(** An attempt that returns no error returns a response with a status in
    200-299. *)
Lemma doOnce_success (w : World) (ctx : Context) (n : nat) (h : Heap)
    (req : Request) (v : Target) :
  at_err (doOnce w ctx n h req v) = None ->
  exists resp,
    at_resp (doOnce w ctx n h req v) = Some resp /\
    is_2xx (StatusCode resp) = true.
Proof.
  unfold doOnce. cbv zeta.
  destruct (rt_result _) as [e | resp].
  - destruct (done_after_send ctx n); discriminate.
  - destruct (Z.gtb_spec 200 (StatusCode resp)) as [Hlo | Hlo];
      [discriminate |].
    destruct (Z.gtb_spec (StatusCode resp) 299) as [Hhi | Hhi];
      [discriminate |].
    cbn [orb]. intros _. exists resp. split.
    + destruct v; reflexivity.
    + unfold is_2xx. apply andb_true_intro. split.
      * apply Z.leb_le. lia.
      * apply Z.ltb_lt. lia.
Qed.

(** Eligibility where no response came with an error. [shouldRetry] answers
    "no retry" for every attempt that returned no error at all (a status in
    200-299 and nothing that failed after it), and for every transport-level
    error that is a cancellation or a deadline error, alone or wrapped. It
    answers "retry", with no explicit delay, for every other transport-level
    error. A transport-level error is what [doOnce] returns when the round
    trip fails: no response, and the error. *)
Lemma retry_eligibility (w : World) (now : Z) (policy : RetryPolicy) :
  (forall resp : Response,
      is_2xx (StatusCode resp) = true ->
      shouldRetry w now (Some resp) None policy = (false, 0)) /\
  (forall (ctx : Context) (n : nat) (h : Heap) (req : Request) (v : Target),
      let a := doOnce w ctx n h req v in
      at_err a = None ->
      shouldRetry w now (at_resp a) (at_err a) policy = (false, 0)) /\
  (forall e : error,
      is_context_error e = true ->
      shouldRetry w now None (Some e) policy = (false, 0)) /\
  (forall e : error,
      is_context_error e = false ->
      shouldRetry w now None (Some e) policy = (true, 0)) /\
  (forall (ctx : Context) (n : nat) (h : Heap) (req : Request) (v : Target)
          (e : error),
      rt_result (roundTrip w n (snapshot h req)) = inl e ->
      let a := doOnce w ctx n h req v in
      exists e', at_resp a = None /\ at_err a = Some e' /\
                 shouldRetry w now (at_resp a) (at_err a) policy =
                 (negb (is_context_error e'), 0)).
Proof.
  assert (Hok : forall resp : Response,
             is_2xx (StatusCode resp) = true ->
             shouldRetry w now (Some resp) None policy = (false, 0)).
  { intros resp H2. unfold shouldRetry. simpl. rewrite H2. reflexivity. }
  split; [exact Hok |]. split; [| split; [| split]].
  - intros ctx n h req v a Herr.
    destruct (doOnce_success w ctx n h req v Herr) as (resp & Hr & H2).
    subst a. rewrite Herr, Hr. apply Hok, H2.
  - intros e He. rewrite shouldRetry_transport_error, He. reflexivity.
  - intros e He. rewrite shouldRetry_transport_error, He. reflexivity.
  - intros ctx n h req v e Hrt. cbv zeta.
    destruct (doOnce_transport_error w ctx n h req v e Hrt) as [Hr He].
    eexists. rewrite Hr, He. split; [reflexivity |]. split; [reflexivity |].
    apply shouldRetry_transport_error.
Qed.

(** A decode error on a 2xx response takes the branch written for network
    errors. *)
Lemma shouldRetry_decode_error (w : World) (now : Z) (policy : RetryPolicy)
    (resp : Response) (e : error) :
  status_retryable policy (StatusCode resp) = false ->
  is_context_error e = false ->
  shouldRetry w now (Some resp) (Some e) policy = (true, 0).
Proof.
  intros Hs He. unfold shouldRetry. simpl. rewrite Hs, He. reflexivity.
Qed.

(** ** The Retry-After header *)

(** The bound of the parser's loop is never what stops it: every group
    leaves a strictly shorter input, so any bound from the length of the
    input up gives the same result. *)

Lemma leadingInt_from_shorter (s : string) :
  forall x v r,
    GoTime.leadingInt_from x s = Some (v, r) ->
    (String.length r <= String.length s)%nat.
Proof.
  induction s as [| c rest IH]; intros x v r Hl; simpl in Hl.
  - injection Hl as _ <-. reflexivity.
  - destruct (GoTime.is_digit c).
    + destruct (x >? 2 ^ 63 / 10); [discriminate |].
      destruct (x * 10 + GoTime.digit_val c >? 2 ^ 63); [discriminate |].
      apply IH in Hl. simpl. lia.
    + injection Hl as _ <-. reflexivity.
Qed.

Lemma leadingFraction_from_shorter (s : string) :
  forall x scale overflow,
    (String.length (snd (GoTime.leadingFraction_from x scale overflow s))
     <= String.length s)%nat.
Proof.
  induction s as [| c rest IH]; intros x scale overflow; simpl; [lia |].
  destruct (GoTime.is_digit c); [| simpl; lia].
  destruct overflow; [specialize (IH x scale true); lia |].
  destruct (x >? (2 ^ 63 - 1) / 10); [specialize (IH x scale true); lia |].
  destruct (x * 10 + GoTime.digit_val c >? 2 ^ 63).
  - specialize (IH x scale true). lia.
  - specialize (IH (x * 10 + GoTime.digit_val c) (scale * 10) false). lia.
Qed.

Lemma span_unit_split (s : string) :
  forall u r,
    GoTime.span_unit s = (u, r) ->
    String.length s = (String.length u + String.length r)%nat.
Proof.
  induction s as [| c rest IH]; intros u r Hs; simpl in Hs.
  - injection Hs as <- <-. reflexivity.
  - destruct (GoTime.is_dot c || GoTime.is_digit c).
    + injection Hs as <- <-. reflexivity.
    + destruct (GoTime.span_unit rest) as [u' r'].
      injection Hs as <- <-. simpl. rewrite (IH u' r' eq_refl). reflexivity.
Qed.

Lemma parse_group_shorter (s : string) (v : Z) (r : string) :
  GoTime.parse_group s = Some (v, r) ->
  (String.length r < String.length s)%nat.
Proof.
  unfold GoTime.parse_group. destruct s as [| c0 s0]; [discriminate |].
  destruct (negb _); [discriminate |].
  unfold GoTime.leadingInt.
  destruct (GoTime.leadingInt_from 0 (String c0 s0)) as [[v1 s1] |] eqn:Hl;
    [| discriminate].
  apply leadingInt_from_shorter in Hl.
  assert (Hrest : forall f scale s2 post,
            (String.length s2 <= String.length s1)%nat ->
            (if negb (negb (String.length (String c0 s0) =? String.length s1)%nat)
                && negb post
             then None
             else
               let (u, s3) := GoTime.span_unit s2 in
               if String.eqb u EmptyString then None
               else
                 match GoTime.unitMap u with
                 | Some unit =>
                     if v1 >? 2 ^ 63 / unit then None
                     else
                       let v := GoTime.wrap64 (v1 * unit) in
                       let v :=
                         if f >? 0
                         then GoTime.wrap64 (v + Z.quot (f * unit) scale)
                         else v in
                       if (f >? 0) && (v >? 2 ^ 63) then None else Some (v, s3)
                 | None => None
                 end) = Some (v, r) ->
            (String.length r < String.length (String c0 s0))%nat).
  { intros f scale s2 post Hs2.
    destruct (_ && _); [discriminate |].
    destruct (GoTime.span_unit s2) as [u s3] eqn:Hu.
    apply span_unit_split in Hu.
    destruct u as [| cu u']; [discriminate |].
    cbn [String.eqb]. cbv iota.
    destruct (GoTime.unitMap _); [| discriminate].
    destruct (v1 >? _); [discriminate |]. cbv zeta.
    destruct (_ && _); [discriminate |].
    intros Heq. injection Heq as _ <-. simpl in Hu. lia. }
  destruct s1 as [| c1 s1'].
  - apply Hrest. lia.
  - destruct (GoTime.is_dot c1).
    + unfold GoTime.leadingFraction.
      pose proof (leadingFraction_from_shorter s1' 0 1 false) as Hf.
      destruct (GoTime.leadingFraction_from 0 1 false s1') as [[f scale] s2].
      simpl in Hf. apply Hrest. simpl. lia.
    + apply Hrest. lia.
Qed.

Lemma parse_groups_bound (n : nat) :
  forall (s : string) (d : Z) (m : nat),
    (String.length s <= n)%nat -> (String.length s <= m)%nat ->
    GoTime.parse_groups n s d = GoTime.parse_groups m s d.
Proof.
  induction n as [| n IH]; intros s d m Hn Hm.
  - destruct s; [destruct m; reflexivity | simpl in Hn; lia].
  - destruct s as [| c s0]; [destruct m; reflexivity |].
    destruct m as [| m]; [simpl in Hm; lia |].
    cbn [GoTime.parse_groups].
    destruct (GoTime.parse_group (String c s0)) as [[v r] |] eqn:Hg;
      [| reflexivity].
    apply parse_group_shorter in Hg. cbv zeta.
    destruct (_ >? _); [reflexivity |].
    apply IH; simpl in *; lia.
Qed.

(** The parser on a count of seconds: a nonempty string of digits followed
    by "s" is that many seconds, as long as the duration fits in an int64. *)

Lemma is_digit_val (c : ascii) :
  GoTime.is_digit c = true -> 0 <= GoTime.digit_val c <= 9.
Proof.
  unfold GoTime.is_digit, GoTime.digit_val. intros Hd.
  apply andb_prop in Hd. destruct Hd as [H1 H2].
  apply Nat.leb_le in H1. apply Nat.leb_le in H2. lia.
Qed.

Lemma digits_value_grows (s : string) :
  forall x, 0 <= x -> all_digits s = true -> x <= digits_value x s.
Proof.
  induction s as [| c rest IH]; intros x Hx Hs; simpl in *; [lia |].
  apply andb_prop in Hs. destruct Hs as [Hc Hrest].
  pose proof (is_digit_val c Hc).
  specialize (IH (x * 10 + GoTime.digit_val c) ltac:(lia) Hrest). lia.
Qed.

Lemma append_cons (c : ascii) (r s : string) :
  (String c r ++ s)%string = String c (r ++ s).
Proof. reflexivity. Qed.

Lemma append_empty (s : string) : (EmptyString ++ s)%string = s.
Proof. reflexivity. Qed.

Lemma leadingInt_from_digits (s : string) :
  forall x,
    0 <= x -> all_digits s = true -> digits_value x s <= 9223372036 ->
    GoTime.leadingInt_from x (s ++ "s") = Some (digits_value x s, "s"%string).
Proof.
  assert (H10 : 2 ^ 63 / 10 = 922337203685477580) by reflexivity.
  assert (H63 : 2 ^ 63 = 9223372036854775808) by reflexivity.
  induction s as [| c rest IH]; intros x Hx Hs Hb.
  - reflexivity.
  - simpl in Hs, Hb. apply andb_prop in Hs. destruct Hs as [Hc Hrest].
    pose proof (is_digit_val c Hc) as Hv.
    pose proof (digits_value_grows rest (x * 10 + GoTime.digit_val c)
                  ltac:(lia) Hrest) as Hg.
    rewrite append_cons. cbn [GoTime.leadingInt_from digits_value]. rewrite Hc.
    rewrite H10, H63.
    destruct (Z.gtb_spec x 922337203685477580); [lia |].
    destruct (Z.gtb_spec (x * 10 + GoTime.digit_val c) 9223372036854775808);
      [lia |].
    apply IH; [lia | exact Hrest | exact Hb].
Qed.

Lemma digit_not_sign (c : ascii) :
  GoTime.is_digit c = true ->
  Ascii.eqb c "-"%char = false /\ Ascii.eqb c "+"%char = false /\
  GoTime.is_dot c = false.
Proof.
  intros Hc. unfold GoTime.is_dot. repeat split.
  - destruct (Ascii.eqb_spec c "-"%char) as [-> |]; [discriminate | reflexivity].
  - destruct (Ascii.eqb_spec c "+"%char) as [-> |]; [discriminate | reflexivity].
  - destruct (Ascii.eqb_spec c "."%char) as [-> |]; [discriminate | reflexivity].
Qed.

Lemma append_s_length (s : string) :
  String.length (s ++ "s") = S (String.length s).
Proof.
  induction s as [| c rest IH]; [reflexivity |].
  rewrite append_cons. cbn [String.length]. rewrite IH. reflexivity.
Qed.

Lemma parse_group_integer_seconds (h : string) :
  h <> EmptyString -> all_digits h = true ->
  digits_value 0 h <= 9223372036 ->
  GoTime.parse_group (h ++ "s") =
  Some (digits_value 0 h * Duration.Second, EmptyString).
Proof.
  destruct h as [| c rest]; [congruence |]. intros _ Hall Hb.
  assert (Hsec : Duration.Second = 1000000000) by reflexivity.
  pose proof (digits_value_grows (String c rest) 0 ltac:(lia) Hall) as H0.
  pose proof (leadingInt_from_digits (String c rest) 0 ltac:(lia) Hall Hb) as Hlead.
  pose proof Hall as Hall'. simpl in Hall'.
  apply andb_prop in Hall'. destruct Hall' as [Hc _].
  destruct (digit_not_sign c Hc) as (_ & _ & Hdot).
  set (V := digits_value 0 (String c rest)) in *.
  unfold GoTime.parse_group. rewrite append_cons.
  rewrite Hdot, Hc. cbn [orb negb].
  change (String c (rest ++ "s")) with (String c rest ++ "s")%string.
  unfold GoTime.leadingInt. rewrite Hlead.
  rewrite append_s_length.
  change (GoTime.is_dot "s"%char) with false.
  replace (Nat.eqb (S (String.length (String c rest))) (String.length "s"))
    with false by reflexivity.
  cbn [negb andb].
  change (GoTime.span_unit "s") with ("s"%string, EmptyString).
  cbv iota beta.
  change (String.eqb "s" EmptyString) with false.
  change (GoTime.unitMap "s") with (Some Duration.Second).
  cbv iota beta. rewrite Hsec.
  change (2 ^ 63 / 1000000000) with 9223372036.
  destruct (Z.gtb_spec V 9223372036); [lia |].
  change (0 >? 0) with false. cbn [andb].
  unfold GoTime.wrap64.
  change (2 ^ 64) with 18446744073709551616.
  rewrite (Z.mod_small (V * 1000000000)) by lia.
  reflexivity.
Qed.

Lemma ParseDuration_integer_seconds (h : string) (d : Z) :
  integer_seconds h = Some d -> d <= Duration.maxDuration ->
  GoTime.ParseDuration (h ++ "s") = Some d.
Proof.
  unfold integer_seconds, Duration.maxDuration.
  destruct h as [| c rest]; [discriminate |].
  cbn [String.eqb negb andb].
  destruct (all_digits (String c rest)) eqn:Hall; [| discriminate].
  intros Heq Hmax. injection Heq as <-.
  assert (Hsec : Duration.Second = 1000000000) by reflexivity.
  assert (H63 : 2 ^ 63 = 9223372036854775808) by reflexivity.
  rewrite Hsec, H63 in Hmax.
  change (digits_value (0 * 10 + GoTime.digit_val c) rest)
    with (digits_value 0 (String c rest)) in *.
  pose proof (digits_value_grows (String c rest) 0 ltac:(lia) Hall) as H0.
  assert (Hb : digits_value 0 (String c rest) <= 9223372036) by lia.
  pose proof (parse_group_integer_seconds (String c rest)
                ltac:(discriminate) Hall Hb) as Hgroup.
  pose proof Hall as Hall'. simpl in Hall'.
  apply andb_prop in Hall'. destruct Hall' as [Hc _].
  destruct (digit_not_sign c Hc) as (Hminus & Hplus & _).
  set (V := digits_value 0 (String c rest)) in *.
  unfold GoTime.ParseDuration.
  rewrite append_cons. rewrite Hminus, Hplus.
  assert (Hzero : String.eqb (String c (rest ++ "s")) "0" = false).
  { cbn [String.eqb]. destruct (Ascii.eqb c "0"%char); [| reflexivity].
    destruct rest; [rewrite append_empty | rewrite append_cons]; reflexivity. }
  rewrite Hzero. cbn [String.eqb String.length GoTime.parse_groups].
  change (String c (rest ++ "s")) with (String c rest ++ "s")%string.
  rewrite Hgroup. cbv zeta. rewrite Hsec.
  unfold GoTime.wrap64.
  change (2 ^ 64) with 18446744073709551616.
  rewrite Z.add_0_l, (Z.mod_small (V * 1000000000)) by lia.
  rewrite H63.
  destruct (Z.gtb_spec (V * 1000000000) 9223372036854775808); [lia |].
  destruct (String.length (rest ++ "s")); cbn [GoTime.parse_groups];
    change (9223372036854775808 - 1) with 9223372036854775807;
    destruct (Z.gtb_spec (V * 1000000000) 9223372036854775807);
    try lia; reflexivity.
Qed.

(** A value that does not begin as a number is no duration. *)
Lemma ParseDuration_not_number (h : string) :
  h <> EmptyString -> begins_as_number h = false ->
  GoTime.ParseDuration (h ++ "s") = None.
Proof.
  destruct h as [| c rest]; [intros Hh; contradiction |]. intros _ Hb.
  cbn [begins_as_number] in Hb.
  apply orb_false_elim in Hb. destruct Hb as [Hb Hminus].
  apply orb_false_elim in Hb. destruct Hb as [Hb Hplus].
  apply orb_false_elim in Hb. destruct Hb as [Hdigit Hdot].
  assert (Hzero : Ascii.eqb c "0"%char = false).
  { destruct (Ascii.eqb_spec c "0"%char) as [-> |]; [discriminate Hdigit | reflexivity]. }
  unfold GoTime.ParseDuration. rewrite append_cons, Hminus, Hplus.
  cbn [String.eqb]. rewrite Hzero.
  cbn [String.length GoTime.parse_groups].
  unfold GoTime.parse_group, GoTime.is_dot. rewrite Hdot, Hdigit.
  reflexivity.
Qed.

(** What [shouldRetry] and the loop make of a Retry-After header, whatever
    its form: the duration [time.ParseDuration] reads from the header
    followed by "s" when it reads one and it is positive, else the time
    until the RFC 1123 date the header holds when it holds one that lies in
    the future, else the computed backoff. *)
Lemma shouldRetry_hint
    (w : World) (now : Z) (policy : RetryPolicy) (round : nat) (backoff : Z)
    (resp : Response) (err : option error) :
  let h := Header_Get (RespHeader resp) "Retry-After" in
  status_retryable policy (StatusCode resp) = true ->
  is_nil err && is_2xx (StatusCode resp) = false ->
  h <> EmptyString ->
  fst (shouldRetry w now (Some resp) err policy) = true /\
  wait_before_retry w policy round backoff
    (snd (shouldRetry w now (Some resp) err policy)) =
  match GoTime.ParseDuration (h ++ "s") with
  | Some d => if d >? 0 then d else jittered w policy round backoff
  | None =>
      match future_http_date w now h with
      | Some d => d
      | None => jittered w policy round backoff
      end
  end.
Proof.
  cbv zeta. intros Hs Hok Hh.
  apply String.eqb_neq in Hh.
  unfold shouldRetry. rewrite Hok, Hs, Hh. cbn [negb].
  destruct (GoTime.ParseDuration _) as [d |].
  - split; reflexivity.
  - unfold future_http_date.
    destruct (parse_RFC1123 w _) as [date |].
    + destruct (GoTime.Until now date >? 0) eqn:Hd; cbn [fst snd];
        (split; [reflexivity |]); unfold wait_before_retry.
      * rewrite Hd. reflexivity.
      * reflexivity.
    + split; reflexivity.
Qed.

(** C3, as the code is designed. For a failed attempt whose response has a
    retryable status and carries a Retry-After header, the attempt is
    retried, and: when the header is an integer count of seconds that a
    Duration can hold, the wait before the next attempt is that many
    seconds if the count is positive, and the computed backoff if it is
    zero; when the header does not begin as a number does (no HTTP-date
    does), the wait is the time until the date if the header is an
    RFC 1123 date in the future, and the computed backoff in every other
    case. *)
Theorem retry_after_by_design
    (w : World) (now : Z) (policy : RetryPolicy) (round : nat) (backoff : Z)
    (resp : Response) (err : option error) :
  let h := Header_Get (RespHeader resp) "Retry-After" in
  let wait :=
    wait_before_retry w policy round backoff
      (snd (shouldRetry w now (Some resp) err policy)) in
  status_retryable policy (StatusCode resp) = true ->
  is_nil err && is_2xx (StatusCode resp) = false ->
  h <> EmptyString ->
  fst (shouldRetry w now (Some resp) err policy) = true /\
  (forall d, integer_seconds h = Some d -> d <= Duration.maxDuration ->
             wait = if d >? 0 then d else jittered w policy round backoff) /\
  (begins_as_number h = false ->
   wait = match future_http_date w now h with
          | Some d => d
          | None => jittered w policy round backoff
          end).
Proof.
  cbv zeta. intros Hs Hok Hh.
  destruct (shouldRetry_hint w now policy round backoff resp err Hs Hok Hh)
    as [Hretry Hwait].
  split; [exact Hretry |]. split.
  - intros d Hint Hmax.
    rewrite Hwait, (ParseDuration_integer_seconds _ d Hint Hmax). reflexivity.
  - intros Hb. rewrite Hwait, (ParseDuration_not_number _ Hh Hb). reflexivity.
Qed.

(** ** Concrete executions *)

(** The duration parser on the inputs of the examples. *)
Example ParseDuration_seconds :
  GoTime.ParseDuration "1s" = Some Duration.Second.
Proof. reflexivity. Qed.

Example ParseDuration_minutes :
  GoTime.ParseDuration "1m30s" = Some (90 * Duration.Second).
Proof. reflexivity. Qed.

Example ParseDuration_negative :
  GoTime.ParseDuration "-5s" = Some (- (5 * Duration.Second)).
Proof. reflexivity. Qed.

Example ParseDuration_date :
  GoTime.ParseDuration "Wed, 21 Oct 2015 07:28:00 GMTs" = None.
Proof. reflexivity. Qed.

Example ParseDuration_largest :
  GoTime.ParseDuration "9223372036s" = Some (9223372036 * Duration.Second) /\
  GoTime.ParseDuration "9223372037s" = None.
Proof. vm_compute. split; reflexivity. Qed.

(** C1, as stated, fails. Behind a limiter with tokens to spare, a server
    that keeps answering 503 is tried four times on one admission: the
    three retries are made without a call to the limiter's [Wait]. *)
Lemma retries_bypass_limiter :
  ~ every_attempt_cleared (out_trace Examples.retried_behind_limiter).
Proof. unfold every_attempt_cleared. vm_compute. discriminate. Qed.

Lemma limiter_consulted_once_witness :
  limiter_waits (out_trace Examples.retried_behind_limiter) = [EvLimiterWait None] /\
  attempts_follow_admission false (out_trace Examples.retried_behind_limiter) = true.
Proof.
  destruct (limiter_consulted_once
              (TokenBucket.NewTokenBucketRateLimiter 0 10 5)
              (Some DefaultRetryPolicy) false
              Examples.always_503 [] Examples.get JSONTarget None)
    as (rest & Ht & Hq & Hf & _).
  cbv zeta in Ht, Hq, Hf. split; [| exact Hf].
  unfold Examples.retried_behind_limiter, Examples.limited_client,
    NewClientWithOptions. cbn [co_RateLimiter co_RetryPolicy co_DisableRetries
    negb andb is_nil].
  rewrite Ht. cbn [limiter_waits List.filter is_limiter_wait].
  fold (limiter_waits rest). rewrite Hq. vm_compute. reflexivity.
Defined.

(** C2 fails in the code. A server that answers 200 with a page that is not
    JSON is asked four times under the default policy: each decode error is
    treated as a retryable failure, and the caller gets the last one. *)
Theorem decode_error_is_retried :
  attempt_outcomes (out_trace Examples.html_page) =
    [(Some 200, Some Examples.syntax_error);
     (Some 200, Some Examples.syntax_error);
     (Some 200, Some Examples.syntax_error);
     (Some 200, Some Examples.syntax_error)] /\
  out_err Examples.html_page = Some Examples.syntax_error.
Proof. vm_compute. split; reflexivity. Qed.

(** C3, as stated, fails. "0" is an integer count of seconds, yet a 429
    carrying it is not followed by a wait of zero seconds: the loop takes a
    hint that is not positive for no hint, and waits the computed backoff of
    one second. *)
Lemma zero_seconds_is_not_honoured :
  ~ retry_after_as_designed (Examples.always_429 "0") 0 DefaultRetryPolicy
      0 (InitialBackoff DefaultRetryPolicy) (Examples.retry_after "0")
      (Some (ErrorResponseError 429 EmptyString)).
Proof.
  unfold retry_after_as_designed. cbv zeta. intros Hc.
  assert (Hw : 1 * Duration.Second = 0).
  { etransitivity; [| etransitivity; [apply Hc |]].
    - vm_compute. reflexivity.
    - vm_compute. reflexivity.
    - reflexivity.
    - discriminate.
    - vm_compute. reflexivity. }
  discriminate Hw.
Qed.

(** Beside the design. The code's comment reads "Try to parse as seconds",
    but the parser it calls is the duration parser, which reads more than
    counts of seconds: "1m30" is neither an integer count of seconds nor an
    HTTP-date, yet a 429 carrying it makes the executor wait ninety seconds
    instead of the computed backoff of one second. *)
Lemma retry_after_accepts_durations :
  ~ retry_after_as_designed (Examples.always_429 "1m30") 0 DefaultRetryPolicy
      0 (InitialBackoff DefaultRetryPolicy) (Examples.retry_after "1m30")
      (Some (ErrorResponseError 429 EmptyString)).
Proof.
  unfold retry_after_as_designed. cbv zeta. intros Hc.
  assert (Hw : 90 * Duration.Second = 1 * Duration.Second).
  { etransitivity; [| etransitivity; [apply Hc |]].
    - vm_compute. reflexivity.
    - vm_compute. reflexivity.
    - reflexivity.
    - discriminate.
    - vm_compute. reflexivity. }
  discriminate Hw.
Qed.

(** Other header values, of the one kind and of the other. *)
Example retry_after_fraction (w : World) (now : Z) :
  shouldRetry w now (Some (Examples.retry_after "1.5"))
    (Some (ErrorResponseError 429 EmptyString)) DefaultRetryPolicy
  = (true, 1500 * Duration.Millisecond).
Proof. reflexivity. Qed.

Example retry_after_zero (w : World) (now : Z) (round : nat) :
  integer_seconds "0" = Some 0 /\
  wait_before_retry w DefaultRetryPolicy round (InitialBackoff DefaultRetryPolicy)
    (snd (shouldRetry w now (Some (Examples.retry_after "0"))
            (Some (ErrorResponseError 429 EmptyString)) DefaultRetryPolicy))
  = jittered w DefaultRetryPolicy round (InitialBackoff DefaultRetryPolicy).
Proof. split; reflexivity. Qed.

Example retry_after_date :
  shouldRetry (Examples.always_429 "Wed, 21 Oct 2015 07:28:00 GMT")
    (1445412470 * Duration.Second)
    (Some (Examples.retry_after "Wed, 21 Oct 2015 07:28:00 GMT"))
    (Some (ErrorResponseError 429 EmptyString)) DefaultRetryPolicy
  = (true, 10 * Duration.Second).
Proof. vm_compute. reflexivity. Qed.

Lemma retry_after_by_design_witness :
  wait_before_retry (Examples.always_429 "120") DefaultRetryPolicy 0
    (InitialBackoff DefaultRetryPolicy)
    (snd (shouldRetry (Examples.always_429 "120") 0
            (Some (Examples.retry_after "120"))
            (Some (ErrorResponseError 429 EmptyString)) DefaultRetryPolicy))
  = 120 * Duration.Second /\
  wait_before_retry (Examples.always_429 "Wed, 21 Oct 2015 07:28:00 GMT")
    DefaultRetryPolicy 0 (InitialBackoff DefaultRetryPolicy)
    (snd (shouldRetry (Examples.always_429 "Wed, 21 Oct 2015 07:28:00 GMT")
            (1445412470 * Duration.Second)
            (Some (Examples.retry_after "Wed, 21 Oct 2015 07:28:00 GMT"))
            (Some (ErrorResponseError 429 EmptyString)) DefaultRetryPolicy))
  = 10 * Duration.Second.
Proof.
  split.
  - destruct (retry_after_by_design (Examples.always_429 "120") 0
                DefaultRetryPolicy 0 (InitialBackoff DefaultRetryPolicy)
                (Examples.retry_after "120")
                (Some (ErrorResponseError 429 EmptyString)))
      as (_ & Hint & _).
    + vm_compute. reflexivity.
    + reflexivity.
    + discriminate.
    + cbv zeta in Hint. rewrite (Hint (120 * Duration.Second)).
      * reflexivity.
      * vm_compute. reflexivity.
      * vm_compute. discriminate.
  - destruct (retry_after_by_design
                (Examples.always_429 "Wed, 21 Oct 2015 07:28:00 GMT")
                (1445412470 * Duration.Second)
                DefaultRetryPolicy 0 (InitialBackoff DefaultRetryPolicy)
                (Examples.retry_after "Wed, 21 Oct 2015 07:28:00 GMT")
                (Some (ErrorResponseError 429 EmptyString)))
      as (_ & _ & Hdate).
    + vm_compute. reflexivity.
    + reflexivity.
    + discriminate.
    + cbv zeta in Hdate. rewrite Hdate.
      * vm_compute. reflexivity.
      * reflexivity.
Defined.


Lemma tokens_in_range_invariant_witness :
  TokenBucket.monotonic 0
    ([mkWaitEnv 0 (fun _ => TimerFired)] ++ [Examples.impatient]) /\
  TokenBucket.tokens_in_range
    (fst (fst (Wait Examples.empty_bucket Examples.impatient))) /\
  snd (Wait Examples.empty_bucket Examples.impatient) = Some DeadlineExceeded.
Proof.
  assert (Hm : TokenBucket.monotonic 0
                 ([mkWaitEnv 0 (fun _ => TimerFired)] ++ [Examples.impatient])).
  { simpl. lia. }
  split; [exact Hm |].
  destruct (tokens_in_range_invariant 0 (1 # 10) 1
              [mkWaitEnv 0 (fun _ => TimerFired)] Examples.impatient Hm)
    as (_ & _ & Hafter & _).
  split; [exact Hafter | vm_compute; reflexivity].
Defined.

Lemma retry_eligibility_witness :
  shouldRetry Examples.always_503 0
    (Some (mkResponse 200 [] "{}" None)) None DefaultRetryPolicy = (false, 0) /\
  shouldRetry Examples.always_503 0
    None (Some (Wrapped "Get" Canceled)) DefaultRetryPolicy = (false, 0) /\
  shouldRetry Examples.always_503 0
    None (Some (Opaque "connection refused")) DefaultRetryPolicy = (true, 0).
Proof.
  destruct (retry_eligibility Examples.always_503 0 DefaultRetryPolicy)
    as (Hok & _ & Hctx & Hnet & _).
  split; [apply Hok; reflexivity |].
  split; [apply Hctx; reflexivity | apply Hnet; reflexivity].
Defined.

(** The two context errors by name, alone and wrapped by the transport. *)
Example context_errors_are_terminal (w : World) (now : Z) (policy : RetryPolicy) :
  shouldRetry w now None (Some Canceled) policy = (false, 0) /\
  shouldRetry w now None (Some DeadlineExceeded) policy = (false, 0) /\
  shouldRetry w now None (Some (Wrapped "Get" Canceled)) policy = (false, 0) /\
  shouldRetry w now None (Some (Wrapped "Get" DeadlineExceeded)) policy = (false, 0).
Proof. repeat split. Qed.

(** C5 fails in the code. The constructor replaces a rate that is zero or
    less by the default, but NaN compares false with everything and is
    kept, and so is +Inf. The refill of the first [Wait] then multiplies
    the elapsed seconds by NaN, or zero elapsed seconds by +Inf, [math.Min]
    returns NaN, and a caller whose context is done leaves with NaN tokens
    in the bucket: neither 0 <= tokens nor tokens <= maxTokens holds. *)
Theorem unordered_rate_breaks_the_token_range :
  let built := TokenBucket64.NewTokenBucketRateLimiter 0 PrimFloat.nan 5 in
  let after := TokenBucket64.Wait_bucket built (TokenBucket64.cancelled_caller 1000) in
  let built' := TokenBucket64.NewTokenBucketRateLimiter 0 PrimFloat.infinity 5 in
  let after' := TokenBucket64.Wait_bucket built' (TokenBucket64.cancelled_caller 0) in
  (TokenBucket64.tokens_in_range built = true /\
   snd after = Some Canceled /\
   PrimFloat.is_nan (TokenBucket64.tokens (fst (fst after))) = true /\
   TokenBucket64.tokens_in_range (fst (fst after)) = false) /\
  (TokenBucket64.tokens_in_range built' = true /\
   snd after' = Some Canceled /\
   PrimFloat.is_nan (TokenBucket64.tokens (fst (fst after'))) = true /\
   TokenBucket64.tokens_in_range (fst (fst after')) = false).
Proof. vm_compute. repeat split. Qed.

(** A rate that is a number leaves the same caller with the five tokens of
    the burst. *)
Example ordinary_rate_keeps_the_token_range :
  let built :=
    TokenBucket64.NewTokenBucketRateLimiter 0 (TokenBucket64.float64_of_int 10) 5 in
  let after := TokenBucket64.Wait_bucket built (TokenBucket64.cancelled_caller 1000) in
  snd after = None /\
  TokenBucket64.tokens (fst (fst after)) = TokenBucket64.float64_of_int 4 /\
  TokenBucket64.tokens_in_range (fst (fst after)) = true.
Proof. vm_compute. repeat split. Qed.

(** C6 fails in the code, by the defect of C2. An attempt that is answered
    200 and whose body then fails to decode, or to be copied to the
    caller's writer, has no transport error and a status in 200-299; yet
    [shouldRetry] finds an error, passes the test for success and the test
    for retryable statuses, and answers "retry" in the branch written for
    network errors. *)
Theorem success_with_late_error_is_retried :
  let decoded :=
    doOnce Examples.html_200 Examples.background 0 [] Examples.get JSONTarget in
  let copied :=
    doOnce Examples.html_200 Examples.background 0 [] Examples.get
      (RawSink (Some (Opaque "short write"))) in
  rt_result (roundTrip Examples.html_200 0 (at_sent decoded)) = inr Scenes.page /\
  is_2xx (StatusCode Scenes.page) = true /\
  (at_resp decoded = Some Scenes.page /\
   at_err decoded = Some Examples.syntax_error /\
   shouldRetry Examples.html_200 0 (at_resp decoded) (at_err decoded)
     DefaultRetryPolicy = (true, 0)) /\
  (at_resp copied = Some Scenes.page /\
   at_err copied = Some (Opaque "short write") /\
   shouldRetry Examples.html_200 0 (at_resp copied) (at_err copied)
     DefaultRetryPolicy = (true, 0)).
Proof. vm_compute. repeat split. Qed.

(** C7, as stated, fails. When the context is cancelled while the executor
    waits before the first retry, the caller gets the 503 response with
    [context.Canceled], which is not the outcome of the one attempt made. *)
Lemma cancellation_replaces_last_outcome :
  ~ (retries_bounded DefaultRetryPolicy Examples.cancelled_between_attempts /\
     returns_last_attempt Examples.cancelled_between_attempts).
Proof.
  intros [_ Hlast]. unfold returns_last_attempt in Hlast.
  vm_compute in Hlast. discriminate Hlast.
Qed.

Lemma retrying_returns_witness :
  effective_policy Examples.plain_client None = Some DefaultRetryPolicy /\
  retries_bounded DefaultRetryPolicy Examples.retried_503 /\
  returns_last_attempt Examples.retried_503.
Proof.
  split; [reflexivity |].
  destruct (retrying_returns Examples.plain_client Examples.always_503 []
              Examples.get JSONTarget None DefaultRetryPolicy eq_refl)
    as (Hbound & Hlast & _).
  split; [exact Hbound |].
  apply Hlast. vm_compute. reflexivity.
Defined.

(** C8, as stated, fails. A POST whose body is a reader without [GetBody]
    is retried with that same reader: the first attempt sends the form, the
    three retries send what is left of it, which is nothing. *)
Lemma consumed_body_is_resent :
  ~ full_body_every_attempt Examples.form
      (out_trace Examples.post_without_GetBody).
Proof.
  unfold full_body_every_attempt. intros Hall.
  assert (Hs : sent_bodies (out_trace Examples.post_without_GetBody) =
               [Some Examples.form; Some EmptyString; Some EmptyString;
                Some EmptyString]).
  { vm_compute. reflexivity. }
  rewrite Hs in Hall.
  apply Forall_cons_iff in Hall. destruct Hall as [_ Hall].
  apply Forall_cons_iff in Hall. destruct Hall as [Hsecond _].
  discriminate Hsecond.
Qed.

Lemma body_replayed_from_GetBody_witness :
  full_body_every_attempt Examples.form (out_trace Examples.post_with_GetBody) /\
  length (attempts (out_trace Examples.post_with_GetBody)) = 4%nat /\
  reader_chain Examples.always_503 Examples.form
    (out_trace Examples.post_without_GetBody).
Proof.
  destruct (@body_replayed_from_GetBody TokenBucket.TokenBucketRateLimiter _)
    as (Hreplayed & _ & Hreused).
  split; [| split; [vm_compute; reflexivity |]].
  - apply (Hreplayed Examples.plain_client Examples.always_503 [Examples.form]
             (Examples.post (Some (inr Examples.form))) JSONTarget None
             O Examples.form);
      reflexivity.
  - apply (Hreused Examples.plain_client Examples.always_503 [Examples.form]
             (Examples.post None) JSONTarget None O);
      reflexivity.
Defined.

(** C9, as stated, fails. With retries off and a limiter whose bucket is
    empty, a call whose deadline passes during the limiter's wait makes no
    attempt at all. *)
Lemma refused_call_makes_no_attempt :
  retries_disabled Examples.no_retry_client
    (Some (mkRequestOptions (Some Examples.expired_in_limiter) false)) /\
  ~ exactly_one_attempt Examples.refused_with_retries_off.
Proof.
  split.
  - left. reflexivity.
  - unfold exactly_one_attempt. vm_compute. discriminate.
Qed.

Lemma single_attempt_when_disabled_witness :
  retries_disabled Examples.retries_off_client None /\
  exactly_one_attempt Examples.single_503 /\
  returns_last_attempt Examples.single_503.
Proof.
  assert (Hd : retries_disabled Examples.retries_off_client None).
  { left. reflexivity. }
  split; [exact Hd |].
  pose proof (single_attempt_when_disabled Examples.retries_off_client
                Examples.always_503 [] Examples.get JSONTarget None Hd) as Hs.
  cbv zeta in Hs. cbn [limiter_answer Examples.retries_off_client
    NewClientWithOptions rateLimiter co_RateLimiter] in Hs.
  destruct Hs as (Hone & Hlast & _).
  split; [exact Hone | exact Hlast].
Defined.

(** * Further properties *)

(** ** The token bucket over float64 *)

Lemma Wait_bucket64_frame (r : TokenBucket64.TokenBucketRateLimiter)
    (env : TokenBucket64.WaitEnv64) :
  TokenBucket64.maxTokens (fst (fst (TokenBucket64.Wait_bucket r env)))
    = TokenBucket64.maxTokens r /\
  TokenBucket64.tokensPerSec (fst (fst (TokenBucket64.Wait_bucket r env)))
    = TokenBucket64.tokensPerSec r.
Proof.
  unfold TokenBucket64.Wait_bucket. cbv zeta.
  destruct (PrimFloat.leb _ _); [split; reflexivity |].
  destruct (TokenBucket64.race64 env _); split; reflexivity.
Qed.

(** X5. Capacity and rate are fixed by the constructor and never changed by
    [Wait]: after any sequence of calls, whatever their outcomes, the
    limiter has the burst size it was built with, 15 if the one given was
    zero or less, and the rate it was built with, 10 requests per second if
    the one given compared as zero or less. *)
Theorem capacity_and_rate_are_constant
    (now : Z) (requestsPerSecond : PrimFloat.float) (burstSize : Z)
    (calls : list TokenBucket64.WaitEnv64) :
  let r :=
    TokenBucket64.run
      (TokenBucket64.NewTokenBucketRateLimiter now requestsPerSecond burstSize)
      calls in
  TokenBucket64.maxTokens r =
    TokenBucket64.float64_of_int (if burstSize <=? 0 then 15 else burstSize) /\
  TokenBucket64.tokensPerSec r =
    (if PrimFloat.leb requestsPerSecond PrimFloat.zero
     then TokenBucket64.float64_of_int 10 else requestsPerSecond).
Proof.
  cbv zeta.
  assert (Hrun : forall r,
            TokenBucket64.maxTokens (TokenBucket64.run r calls)
              = TokenBucket64.maxTokens r /\
            TokenBucket64.tokensPerSec (TokenBucket64.run r calls)
              = TokenBucket64.tokensPerSec r).
  { induction calls as [| env rest IH]; intros r; simpl; [split; reflexivity |].
    destruct (IH (fst (fst (TokenBucket64.Wait_bucket r env)))) as [Hm Hr].
    destruct (Wait_bucket64_frame r env) as [Hm' Hr'].
    split; congruence. }
  destruct (Hrun (TokenBucket64.NewTokenBucketRateLimiter now requestsPerSecond
                    burstSize)) as [-> ->].
  unfold TokenBucket64.NewTokenBucketRateLimiter.
  cbn [TokenBucket64.maxTokens TokenBucket64.tokensPerSec].
  split; reflexivity.
Qed.

(** ** Single attempts and their eligibility *)

Lemma not_2xx (c : Z) : is_2xx c = false <-> ((200 >? c) || (c >? 299)) = true.
Proof.
  unfold is_2xx.
  destruct (Z.leb_spec 200 c), (Z.ltb_spec c 300),
    (Z.gtb_spec 200 c), (Z.gtb_spec c 299); simpl; split; intros; try lia;
    congruence.
Qed.

(** X6. Whether [shouldRetry] answers "retry" is decided by three facts
    alone: the attempt is not a success (no error and a status in 200-299),
    and either the response's status is in [RetryableStatusCodes] or there
    is an error that is not a context error. *)
Theorem eligibility_formula
    (w : World) (now : Z) (resp : option Response) (err : option error)
    (policy : RetryPolicy) :
  fst (shouldRetry w now resp err policy) =
  negb (is_nil err &&
        match resp with Some r => is_2xx (StatusCode r) | None => false end)
  && (match resp with
      | Some r => status_retryable policy (StatusCode r)
      | None => false
      end
      || match err with
         | Some e => negb (is_context_error e)
         | None => false
         end).
Proof.
  unfold shouldRetry.
  destruct (is_nil err && _); [reflexivity |]. cbn [negb andb].
  destruct (match resp with
            | Some r => status_retryable policy (StatusCode r)
            | None => false
            end).
  - cbn [orb].
    destruct (negb _); [| reflexivity].
    destruct (GoTime.ParseDuration _); [reflexivity |].
    destruct (parse_RFC1123 w _); [| reflexivity].
    destruct (_ >? 0); reflexivity.
  - cbn [orb]. destruct err as [e |]; [| reflexivity].
    destruct (is_context_error e); reflexivity.
Qed.


(** X8. [shouldRetry] returns an explicit delay only together with "retry",
    and only for a response whose status is in [RetryableStatusCodes] and
    which carries a Retry-After header; a delay taken from an HTTP-date is
    positive. *)
Theorem explicit_delay_needs_retryable_status
    (w : World) (now : Z) (resp : option Response) (err : option error)
    (policy : RetryPolicy) :
  snd (shouldRetry w now resp err policy) <> 0 ->
  fst (shouldRetry w now resp err policy) = true /\
  exists r,
    resp = Some r /\
    status_retryable policy (StatusCode r) = true /\
    Header_Get (RespHeader r) "Retry-After" <> EmptyString /\
    (GoTime.ParseDuration (Header_Get (RespHeader r) "Retry-After" ++ "s") = None ->
     0 < snd (shouldRetry w now resp err policy)).
Proof.
  unfold shouldRetry.
  destruct (is_nil err && _); [intros Habs; contradiction Habs; reflexivity |].
  destruct resp as [r |].
  - destruct (status_retryable policy (StatusCode r)) eqn:Hs.
    + destruct (String.eqb_spec (Header_Get (RespHeader r) "Retry-After")
                  EmptyString) as [Heq | Hne].
      * rewrite Heq. cbn. intros Habs; contradiction Habs; reflexivity.
      * cbn [negb].
        destruct (GoTime.ParseDuration _) as [d |] eqn:Hpd.
        -- cbn [fst snd]. intros _. split; [reflexivity |].
           exists r. split; [reflexivity |]. split; [exact Hs |].
           split; [exact Hne |]. intros Hnone. congruence.
        -- destruct (parse_RFC1123 w _) as [date |].
           ++ destruct (Z.gtb_spec (GoTime.Until now date) 0).
              ** cbn [fst snd]. intros _. split; [reflexivity |].
                 exists r. split; [reflexivity |]. split; [exact Hs |].
                 split; [exact Hne |]. intros _. lia.
              ** cbn [snd]. intros Habs; contradiction Habs; reflexivity.
           ++ cbn [snd]. intros Habs; contradiction Habs; reflexivity.
    + destruct err as [e |]; [destruct (is_context_error e) |];
        cbn [snd]; intros Habs; contradiction Habs; reflexivity.
  - destruct err as [e |]; [destruct (is_context_error e) |];
      cbn [snd]; intros Habs; contradiction Habs; reflexivity.
Qed.

(** ** Executions, attempt by attempt *)

Section ExecutionFacts.

Context {L : Type} `{RateLimiter L}.

Lemma attempt_records_app (t u : list event) :
  attempt_records (t ++ u) = attempt_records t ++ attempt_records u.
Proof.
  induction t as [| x t IH]; simpl; [reflexivity |].
  destruct x; simpl; rewrite IH; reflexivity.
Qed.

Lemma attempt_records_getbody (req : Request) :
  attempt_records (getbody_events req) = [].
Proof. unfold getbody_events. destruct (GetBody req); reflexivity. Qed.

Lemma attempt_records_limiter (c : Client L) (w : World) (ctx : Context) :
  attempt_records (limiter_events c w ctx) = [].
Proof. unfold limiter_events. destruct (rateLimiter c); reflexivity. Qed.

Lemma terminal_not_eligible (w : World) (policy : RetryPolicy)
    (rec : nat * option Response * option error) :
  eligible w policy rec -> terminal rec = false.
Proof.
  destruct rec as [[n resp] err]. unfold eligible, terminal.
  destruct resp as [r |], err as [e |]; try reflexivity.
  - destruct (is_2xx (StatusCode r)) eqn:H2; [| reflexivity].
    unfold shouldRetry. simpl. rewrite H2. discriminate.
  - rewrite shouldRetry_transport_error.
    destruct (is_context_error e); [discriminate | reflexivity].
Qed.

Lemma loop_run_eligible (w : World) (ctx : Context) (policy : RetryPolicy)
    (req : Request) (v : Target) (fuel retries : nat) (st st' : LoopState) :
  loop_run w ctx policy req v fuel retries st st' ->
  (exists t s,
      ls_trace st = t ++ [EvAttempt retries s (ls_resp st) (ls_err st)] /\
      Forall (eligible w policy) (attempt_records t)) ->
  Forall (eligible w policy) (removelast (attempt_records (ls_trace st'))).
Proof.
  intros Hrun.
  induction Hrun as
    [ retries st
    | fuel retries st ra Hs
    | fuel retries st ra e Hs Hrace
    | fuel retries st ra e Hs Hrace Hg
    | fuel retries st st' ra h retryReq Hs Hrace Hb Hrun IH ];
    intros (t & s & Ht & Hall).
  - rewrite Ht, attempt_records_app. simpl. rewrite removelast_last. exact Hall.
  - rewrite Ht, attempt_records_app. simpl. rewrite removelast_last. exact Hall.
  - cbn [ls_trace]. rewrite Ht, !attempt_records_app. simpl.
    rewrite !app_nil_r, removelast_last. exact Hall.
  - cbn [ls_trace]. rewrite Ht, !attempt_records_app. simpl.
    rewrite !app_nil_r, removelast_last. exact Hall.
  - apply IH. cbv zeta. cbn [ls_trace ls_resp ls_err].
    eexists _, _. split; [unfold attempt_event; reflexivity |].
    rewrite Ht, !attempt_records_app, attempt_records_getbody. simpl.
    rewrite !app_nil_r. apply Forall_app. split; [exact Hall |].
    constructor; [| constructor].
    unfold eligible. rewrite Hs. reflexivity.
Qed.

(** X10. An execution goes on to another attempt only from an outcome that
    [shouldRetry] found eligible: every attempt but the last one was
    eligible for a retry, so none of them was a success and none returned a
    context error in place of a response. A successful attempt and a
    cancelled one are always the last. *)
Theorem only_eligible_outcomes_are_retried
    (c : Client L) (w : World) (h : Heap) (req : Request) (v : Target)
    (opts : option RequestOptions) (policy : RetryPolicy) :
  effective_policy c opts = Some policy ->
  let earlier :=
    removelast (attempt_records (out_trace (DoWithOptions c w h req v opts))) in
  Forall (eligible w policy) earlier /\
  Forall (fun rec => terminal rec = false) earlier.
Proof.
  intros Hp. cbv zeta.
  assert (Hel : Forall (eligible w policy)
            (removelast
               (attempt_records (out_trace (DoWithOptions c w h req v opts))))).
  { set (ctx := effective_context req opts).
    destruct (limiter_answer c w ctx) as [e |] eqn:Hl.
    - destruct (DoWithOptions_refused c w h req v opts e Hl) as (Ht & _).
      rewrite Ht. constructor.
    - destruct (DoWithOptions_retrying c w h req v opts policy Hl Hp) as (Ht & _).
      cbv zeta in Ht. fold ctx in Ht. rewrite Ht.
      eapply loop_run_eligible; [apply retry_loop_run |].
      unfold loop_start. cbn [ls_trace ls_resp ls_err].
      eexists _, _. split; [unfold attempt_event; reflexivity |].
      rewrite attempt_records_limiter. constructor. }
  split; [exact Hel |].
  eapply Forall_impl; [exact Hel |].
  intros rec. apply terminal_not_eligible.
Qed.

(** The bound on the attempts of any execution. *)
Lemma attempts_bounded (c : Client L) (w : World) (h : Heap) (req : Request)
    (v : Target) (opts : option RequestOptions) :
  (length (attempts (out_trace (DoWithOptions c w h req v opts)))
   <= match effective_policy c opts with
      | Some policy => 1 + Z.to_nat (MaxRetries policy)
      | None => 1
      end)%nat.
Proof.
  set (ctx := effective_context req opts).
  destruct (limiter_answer c w ctx) as [e |] eqn:Hl.
  - destruct (DoWithOptions_refused c w h req v opts e Hl) as (Ht & _).
    rewrite Ht. destruct (effective_policy c opts); simpl; lia.
  - destruct (effective_policy c opts) as [policy |] eqn:Hp.
    + destruct (DoWithOptions_retrying c w h req v opts policy Hl Hp) as (Ht & _).
      cbv zeta in Ht. fold ctx in Ht. rewrite Ht.
      destruct (loop_run_appends _ _ _ _ _ _ _ _ _
                  (retry_loop_run w ctx policy (WithContext req ctx) v
                     (Z.to_nat (MaxRetries policy)) 0
                     (loop_start c w h req v opts policy)))
        as (suffix & Hs & _ & Ha).
      rewrite Hs. unfold loop_start. cbn [ls_trace]. fold ctx.
      rewrite !attempts_app.
      destruct (limiter_events_quiet c w ctx) as (-> & _ & _).
      simpl. lia.
    + destruct (DoWithOptions_single c w h req v opts Hl Hp) as (Ht & _).
      cbv zeta in Ht. fold ctx in Ht. rewrite Ht, attempts_app.
      destruct (limiter_events_quiet c w ctx) as (-> & _ & _).
      simpl. lia.
Qed.

(** ** Executions that use up their retries *)

Lemma shouldRetry_api_error (w : World) (now : Z) (policy : RetryPolicy)
    (resp : Response) (status : Z) (message : string) :
  fst (shouldRetry w now (Some resp)
         (Some (ErrorResponseError status message)) policy) = true.
Proof.
  unfold shouldRetry. cbn [is_nil andb].
  destruct (status_retryable policy (StatusCode resp)); [| reflexivity].
  destruct (negb _); [| reflexivity].
  destruct (GoTime.ParseDuration _); [reflexivity |].
  destruct (parse_RFC1123 w _); [| reflexivity].
  destruct (_ >? 0); reflexivity.
Qed.

Lemma doOnce_api_error (w : World) (ctx : Context) (n : nat) (h : Heap)
    (req : Request) (v : Target) (resp : Response) :
  rt_result (roundTrip w n (snapshot h req)) = inr resp ->
  is_2xx (StatusCode resp) = false ->
  exists message,
    at_resp (doOnce w ctx n h req v) = Some resp /\
    at_err (doOnce w ctx n h req v) =
      Some (ErrorResponseError (StatusCode resp) message).
Proof.
  intros Hrt Hs. apply not_2xx in Hs.
  unfold doOnce. cbv zeta. rewrite Hrt, Hs. eexists. split; reflexivity.
Qed.

Lemma rebuild_succeeds (h : Heap) (req : Request) (ctx : Context) :
  (forall e, GetBody req <> Some (inl e)) ->
  exists h' retryReq, rebuild h req ctx = inr (h', retryReq).
Proof.
  intros Hget. unfold rebuild.
  destruct (GetBody req) as [[e | content] |].
  - contradiction (Hget e). reflexivity.
  - destruct (alloc h content). eexists _, _. reflexivity.
  - eexists _, _. reflexivity.
Qed.

Lemma retry_loop_exhausts (w : World) (ctx : Context) (policy : RetryPolicy)
    (req : Request) (v : Target) :
  (forall n sent, exists resp,
      rt_result (roundTrip w n sent) = inr resp /\
      is_2xx (StatusCode resp) = false) ->
  (forall n d, done_in_backoff ctx n d = TimerFired) ->
  (forall e, GetBody req <> Some (inl e)) ->
  forall (fuel retries : nat) (st : LoopState),
    api_failed st ->
    api_failed (retry_loop w ctx policy req v fuel retries st) /\
    length (attempts (ls_trace (retry_loop w ctx policy req v fuel retries st)))
    = (length (attempts (ls_trace st)) + fuel)%nat.
Proof.
  intros Hfail Hctx Hget.
  induction fuel as [| fuel IH]; intros retries st Hst.
  - simpl. split; [exact Hst | lia].
  - cbn [retry_loop].
    destruct Hst as (resp & message & Hr & He).
    pose proof (shouldRetry_api_error w (clock w retries) policy resp
                  (StatusCode resp) message) as Hs.
    rewrite Hr, He.
    destruct (shouldRetry w (clock w retries) (Some resp)
                (Some (ErrorResponseError (StatusCode resp) message)) policy)
      as [should ra].
    cbn [fst] in Hs. subst should. cbn [negb].
    rewrite Hctx.
    destruct (rebuild_succeeds (ls_heap st) req ctx Hget) as (h' & retryReq & Hb).
    rewrite Hb.
    destruct (Hfail (S retries) (snapshot h' retryReq)) as (resp' & Hrt & H2).
    destruct (doOnce_api_error w ctx (S retries) h' retryReq v resp' Hrt H2)
      as (message' & Hr' & He').
    match goal with
    | |- context [retry_loop w ctx policy req v fuel (S retries) ?st1] =>
        destruct (IH (S retries) st1) as [Hfinal Hlen]
    end.
    { exists resp', message'. cbn [ls_resp ls_err]. split; assumption. }
    split; [exact Hfinal |].
    rewrite Hlen. cbn [ls_trace].
    rewrite !attempts_app.
    destruct (getbody_events_quiet req) as [-> _].
    simpl. rewrite !app_nil_r, length_app. simpl. lia.
Qed.

(** X13. Against a server that answers every request with a status outside
    200-299, under a context that does not fire during the waits and with a
    [GetBody] that does not fail, an admitted execution with retries enabled
    makes exactly one attempt plus [MaxRetries] more, and returns the last
    response with its [*ErrorResponse]. *)
Theorem persistent_failure_uses_all_retries
    (c : Client L) (w : World) (h : Heap) (req : Request) (v : Target)
    (opts : option RequestOptions) (policy : RetryPolicy) :
  effective_policy c opts = Some policy ->
  limiter_answer c w (effective_context req opts) = None ->
  (forall n sent, exists resp,
      rt_result (roundTrip w n sent) = inr resp /\
      is_2xx (StatusCode resp) = false) ->
  (forall n d, done_in_backoff (effective_context req opts) n d = TimerFired) ->
  (forall e, GetBody req <> Some (inl e)) ->
  let out := DoWithOptions c w h req v opts in
  length (attempts (out_trace out)) = (1 + Z.to_nat (MaxRetries policy))%nat /\
  exists resp message,
    out_resp out = Some resp /\
    out_err out = Some (ErrorResponseError (StatusCode resp) message).
Proof.
  intros Hp Hl Hfail Hctx Hget. cbv zeta.
  set (ctx := effective_context req opts) in *.
  destruct (DoWithOptions_retrying c w h req v opts policy Hl Hp) as (Ht & Hr & He).
  cbv zeta in Ht, Hr, He. fold ctx in Ht, Hr, He.
  assert (Hstart : api_failed (loop_start c w h req v opts policy)).
  { unfold loop_start, first_attempt. cbv zeta. fold ctx.
    destruct (Hfail O (snapshot h (WithContext req ctx))) as (resp & Hrt & H2).
    destruct (doOnce_api_error w ctx O h (WithContext req ctx) v resp Hrt H2)
      as (message & Hr0 & He0).
    exists resp, message. cbn [ls_resp ls_err]. split; assumption. }
  destruct (retry_loop_exhausts w ctx policy (WithContext req ctx) v
              Hfail Hctx Hget (Z.to_nat (MaxRetries policy)) 0
              (loop_start c w h req v opts policy) Hstart)
    as [(resp & message & Hfr & Hfe) Hlen].
  rewrite Ht, Hr, He. split.
  - rewrite Hlen. unfold loop_start. cbn [ls_trace]. fold ctx.
    rewrite attempts_app.
    destruct (limiter_events_quiet c w ctx) as (-> & _ & _).
    simpl. lia.
  - exists resp, message. split; assumption.
Qed.

(** X14. A policy whose [MaxRetries] is zero or negative is as good as no
    policy: the execution is, event for event and result for result, the one
    of the same client without a retry policy. *)
Theorem no_retries_without_budget
    (c : Client L) (w : World) (h : Heap) (req : Request) (v : Target)
    (opts : option RequestOptions) (policy : RetryPolicy) :
  retryPolicy c = Some policy -> MaxRetries policy <= 0 ->
  DoWithOptions c w h req v opts =
  DoWithOptions (mkClient (rateLimiter c) None (disableRetries c)) w h req v opts.
Proof.
  intros Hp Hmax.
  assert (Hfuel : Z.to_nat (MaxRetries policy) = O) by lia.
  unfold DoWithOptions, effective_policy. cbv zeta.
  cbn [rateLimiter retryPolicy disableRetries]. rewrite Hp.
  destruct (rateLimiter c) as [l |].
  - destruct (Wait l _) as [[l' d] err].
    destruct err; [reflexivity |].
    destruct (match opts with
              | Some o => if opt_DisableRetries o then true else disableRetries c
              | None => disableRetries c
              end); [reflexivity |].
    rewrite Hfuel. reflexivity.
  - destruct (match opts with
              | Some o => if opt_DisableRetries o then true else disableRetries c
              | None => disableRetries c
              end); [reflexivity |].
    rewrite Hfuel. reflexivity.
Qed.

(** ** What every attempt is handed *)

Lemma sent_requests_app (t u : list event) :
  sent_requests (t ++ u) = sent_requests t ++ sent_requests u.
Proof.
  induction t as [| x t IH]; simpl; [reflexivity |].
  destruct x; simpl; rewrite IH; reflexivity.
Qed.

Lemma rebuild_same_line (h h' : Heap) (req retryReq : Request) (ctx : Context) :
  rebuild h req ctx = inr (h', retryReq) ->
  Method retryReq = Method req /\ URL retryReq = URL req /\
  ReqHeader retryReq = ReqHeader req.
Proof.
  unfold rebuild. destruct (GetBody req) as [[e | content] |].
  - discriminate.
  - destruct (alloc h content). intros Heq. injection Heq as _ <-. auto.
  - intros Heq. injection Heq as _ <-. auto.
Qed.

Lemma loop_run_same_line (w : World) (ctx : Context) (policy : RetryPolicy)
    (req : Request) (v : Target) (fuel retries : nat) (st st' : LoopState) :
  loop_run w ctx policy req v fuel retries st st' ->
  Forall (same_request_line req) (sent_requests (ls_trace st)) ->
  Forall (same_request_line req) (sent_requests (ls_trace st')).
Proof.
  intros Hrun.
  induction Hrun as
    [ retries st
    | fuel retries st ra Hs
    | fuel retries st ra e Hs Hrace
    | fuel retries st ra e Hs Hrace Hg
    | fuel retries st st' ra h retryReq Hs Hrace Hb Hrun IH ];
    intros Hall; try exact Hall.
  - cbn [ls_trace]. rewrite !sent_requests_app. simpl. rewrite !app_nil_r.
    exact Hall.
  - cbn [ls_trace]. rewrite !sent_requests_app. simpl. rewrite !app_nil_r.
    exact Hall.
  - apply IH. cbv zeta. cbn [ls_trace].
    rewrite !sent_requests_app.
    assert (Hg : sent_requests (getbody_events req) = []).
    { unfold getbody_events. destruct (GetBody req); reflexivity. }
    rewrite Hg. simpl. rewrite !app_nil_r.
    apply Forall_app. split; [exact Hall |].
    constructor; [| constructor].
    rewrite doOnce_sent. unfold same_request_line, snapshot. simpl.
    apply (rebuild_same_line _ _ _ _ _ Hb).
Qed.

Lemma execution_same_line
    (c : Client L) (w : World) (h : Heap) (req : Request) (v : Target)
    (opts : option RequestOptions) :
  Forall (same_request_line req)
    (sent_requests (out_trace (DoWithOptions c w h req v opts))).
Proof.
  set (ctx := effective_context req opts).
  assert (Hquiet : sent_requests (limiter_events c w ctx) = []).
  { unfold limiter_events. destruct (rateLimiter c); reflexivity. }
  assert (Hfirst : Forall (same_request_line (WithContext req ctx))
            (sent_requests
               (limiter_events c w ctx
                ++ [attempt_event 0 (first_attempt w h req v opts)]))).
  { rewrite sent_requests_app, Hquiet. simpl.
    constructor; [| constructor].
    unfold first_attempt. cbv zeta. rewrite doOnce_sent.
    unfold same_request_line, snapshot. simpl. auto. }
  assert (Hsame : forall s, same_request_line (WithContext req ctx) s ->
                            same_request_line req s).
  { intros s Hs. exact Hs. }
  eapply Forall_impl; [| exact Hsame].
  destruct (limiter_answer c w ctx) as [e |] eqn:Hl.
  - destruct (DoWithOptions_refused c w h req v opts e Hl) as (Ht & _).
    rewrite Ht. constructor.
  - destruct (effective_policy c opts) as [policy |] eqn:Hp.
    + destruct (DoWithOptions_retrying c w h req v opts policy Hl Hp) as (Ht & _).
      cbv zeta in Ht. fold ctx in Ht. rewrite Ht.
      eapply loop_run_same_line; [apply retry_loop_run | exact Hfirst].
    + destruct (DoWithOptions_single c w h req v opts Hl Hp) as (Ht & _).
      cbv zeta in Ht. fold ctx in Ht. rewrite Ht. exact Hfirst.
Qed.

(** X15. Every attempt of an execution, the first and each retry, is handed
    the method, the URL and the headers of the request the caller passed
    in: the retry loop rebuilds the request from the caller's, and changes
    at most its context and its body reader. *)
Theorem every_attempt_repeats_the_request
    (c : Client L) (w : World) (h : Heap) (req : Request) (v : Target)
    (opts : option RequestOptions) :
  Forall (fun s : Sent =>
            sent_method s = Method req /\ sent_url s = URL req /\
            sent_header s = ReqHeader req)
    (sent_requests (out_trace (DoWithOptions c w h req v opts))).
Proof. apply execution_same_line. Qed.

End ExecutionFacts.

(** ** Constructed clients *)

Lemma substring_last (s : string) (c : ascii) :
  String.substring (String.length s) 1 (s ++ String c EmptyString)
  = String c EmptyString.
Proof.
  induction s as [| x rest IH].
  - reflexivity.
  - rewrite append_cons. cbn [String.length String.substring]. exact IH.
Qed.

Lemma append_length_one (s : string) (c : ascii) :
  String.length (s ++ String c EmptyString) = S (String.length s).
Proof.
  induction s as [| x rest IH]; [reflexivity |].
  rewrite append_cons. cbn [String.length]. rewrite IH. reflexivity.
Qed.

Lemma HasSuffix_appended (s : string) : HasSuffix (s ++ "/") "/" = true.
Proof.
  unfold HasSuffix. rewrite append_length_one.
  cbn [String.length Nat.leb Nat.sub]. rewrite Nat.sub_0_r.
  rewrite substring_last. reflexivity.
Qed.

Section ConstructedClients.

Context {L : Type} `{RateLimiter L}.

Variable url_Parse : string -> error + url_URL.

(** X16. The constructor refuses an empty base URL before it looks at
    anything else, then an empty token, then a base URL that does not
    parse. The client it returns otherwise holds the token behind "Bearer "
    and a base URL whose path ends with a slash: the parsed path as it is
    when it already ends with one, with a slash added when it does not. *)
Theorem constructed_client_is_well_formed
    (baseURL tok : string) (options : option (ClientOptions L)) :
  match Construction.NewClientWithOptions url_Parse baseURL tok options with
  | inl err =>
      (baseURL = EmptyString /\ err = Opaque "a baseURL must be provided") \/
      (baseURL <> EmptyString /\ tok = EmptyString /\
       err = Opaque "a token must be provided") \/
      (baseURL <> EmptyString /\ tok <> EmptyString /\
       url_Parse baseURL = inl err)
  | inr handle =>
      baseURL <> EmptyString /\ tok <> EmptyString /\
      Construction.token handle = ("Bearer " ++ tok)%string /\
      HasSuffix (url_Path (Construction.BaseURL handle)) "/" = true /\
      exists u,
        url_Parse baseURL = inr u /\
        url_rest (Construction.BaseURL handle) = url_rest u /\
        (HasSuffix (url_Path u) "/" = true ->
         Construction.BaseURL handle = u) /\
        (HasSuffix (url_Path u) "/" = false ->
         url_Path (Construction.BaseURL handle) = (url_Path u ++ "/")%string)
  end.
Proof.
  unfold Construction.NewClientWithOptions.
  destruct (String.eqb_spec baseURL EmptyString) as [Hb | Hb];
    [left; auto |].
  destruct (String.eqb_spec tok EmptyString) as [Ht | Ht];
    [right; left; auto |].
  destruct (url_Parse baseURL) as [err | u] eqn:Hu;
    [right; right; auto |].
  cbn [Construction.token Construction.BaseURL].
  split; [exact Hb |]. split; [exact Ht |]. split; [reflexivity |].
  destruct (HasSuffix (url_Path u) "/") eqn:Hs; cbn [negb url_Path url_rest].
  - split; [exact Hs |]. exists u.
    split; [reflexivity |]. split; [reflexivity |].
    split; [reflexivity | congruence].
  - split; [apply HasSuffix_appended |]. exists u.
    split; [reflexivity |]. split; [reflexivity |].
    split; [congruence | reflexivity].
Qed.

(** X17. A client built with [DisableRetries] never makes more than one
    attempt per call and never waits between attempts, whatever policy the
    options carry. A client built without [DisableRetries] runs every call
    that does not disable retries itself under the policy of the options, or
    under [DefaultRetryPolicy] when the options are nil or carry none, and
    makes at most one attempt plus that policy's [MaxRetries]. *)
Theorem constructed_client_retries_as_configured
    (baseURL tok : string) (options : option (ClientOptions L))
    (handle : Construction.Handle L)
    (w : World) (h : Heap) (req : Request) (v : Target) :
  Construction.NewClientWithOptions url_Parse baseURL tok options = inr handle ->
  let c := Construction.executor handle in
  let disabled :=
    match options with
    | Some o => co_DisableRetries o
    | None => false
    end in
  let configured :=
    match options with
    | Some o =>
        match co_RetryPolicy o with
        | Some p => p
        | None => DefaultRetryPolicy
        end
    | None => DefaultRetryPolicy
    end in
  if disabled then
    forall opts,
      (length (attempts (out_trace (DoWithOptions c w h req v opts))) <= 1)%nat /\
      sleeps (out_trace (DoWithOptions c w h req v opts)) = []
  else
    effective_policy c None = Some configured /\
    (length (attempts (out_trace (Do c w h req v)))
     <= 1 + Z.to_nat (MaxRetries configured))%nat.
Proof.
  unfold Construction.NewClientWithOptions.
  destruct (String.eqb baseURL EmptyString); [discriminate |].
  destruct (String.eqb tok EmptyString); [discriminate |].
  destruct (url_Parse baseURL) as [err | u]; [discriminate |].
  intros Heq. injection Heq as <-. cbv zeta. cbn [Construction.executor].
  unfold limiter_and_retry_fields.
  set (c := NewClientWithOptions options).
  destruct (match options with
            | Some o => co_DisableRetries o
            | None => false
            end) eqn:Hd.
  - intros opts.
    assert (Hoff : effective_policy c opts = None).
    { apply retries_disabled_policy. left.
      destruct options as [o |]; [| discriminate].
      unfold c, NewClientWithOptions. cbn [disableRetries]. exact Hd. }
    pose proof (attempts_bounded c w h req v opts) as Hbound.
    rewrite Hoff in Hbound. split; [exact Hbound |].
    set (ctx := effective_context req opts).
    destruct (limiter_answer c w ctx) as [e |] eqn:Hl.
    + destruct (DoWithOptions_refused c w h req v opts e Hl) as (Htr & _).
      rewrite Htr. reflexivity.
    + destruct (DoWithOptions_single c w h req v opts Hl Hoff) as (Htr & _).
      cbv zeta in Htr. rewrite Htr, sleeps_app.
      destruct (limiter_events_quiet c w (effective_context req opts))
        as (_ & _ & ->).
      reflexivity.
  - assert (Hon : effective_policy c None =
                  Some match options with
                       | Some o =>
                           match co_RetryPolicy o with
                           | Some p => p
                           | None => DefaultRetryPolicy
                           end
                       | None => DefaultRetryPolicy
                       end).
    { unfold c, NewClientWithOptions, effective_policy.
      destruct options as [o |]; cbn [disableRetries retryPolicy
        co_DisableRetries co_RetryPolicy co_RateLimiter]; [| reflexivity].
      rewrite Hd. cbn [negb andb].
      destruct (co_RetryPolicy o); reflexivity. }
    split; [exact Hon |].
    pose proof (attempts_bounded c w h req v None) as Hbound.
    rewrite Hon in Hbound. exact Hbound.
Qed.

(** X18. Every attempt made for a request that [newRequestWithContext]
    built with the token of a constructed client, the first and each retry,
    carries the header Authorization with "Bearer " and the token the client
    was built from, and the headers Accept and Content-Type with
    application/json. *)
Theorem every_attempt_is_authorized
    (baseURL tok : string) (options : option (ClientOptions L))
    (handle : Construction.Handle L)
    (V : Type) (json_Encode : V -> error + string)
    (BaseURL_Parse : string -> error + string)
    (http_validate : string -> string -> option error)
    (h h' : Heap) (ctx : Context) (method urlStr : string) (body : option V)
    (req : Request) (w : World) (v : Target) (opts : option RequestOptions) :
  Construction.NewClientWithOptions url_Parse baseURL tok options = inr handle ->
  newRequestWithContext V json_Encode BaseURL_Parse http_validate
    (Construction.token handle) h ctx method urlStr body = (h', inr req) ->
  Forall (fun s =>
            Header_Get (sent_header s) "Authorization" = ("Bearer " ++ tok)%string /\
            Header_Get (sent_header s) "Accept" = "application/json"%string /\
            Header_Get (sent_header s) "Content-Type" = "application/json"%string)
    (sent_requests
       (out_trace (DoWithOptions (Construction.executor handle) w h' req v opts))).
Proof.
  intros Hnew Hreq.
  assert (Htok : Construction.token handle = ("Bearer " ++ tok)%string).
  { unfold Construction.NewClientWithOptions in Hnew.
    destruct (String.eqb baseURL EmptyString); [discriminate |].
    destruct (String.eqb tok EmptyString); [discriminate |].
    destruct (url_Parse baseURL); [discriminate |].
    injection Hnew as <-. reflexivity. }
  assert (Hhdr : ReqHeader req =
                 [("Accept", "application/json");
                  ("Content-Type", "application/json");
                  ("Authorization", Construction.token handle)]%string).
  { unfold newRequestWithContext in Hreq.
    destruct (BaseURL_Parse _); [discriminate |].
    destruct body as [b |].
    - destruct (json_Encode b); [discriminate |].
      destruct (http_validate method s); [discriminate |].
      destruct (alloc h s0). injection Hreq as _ <-. reflexivity.
    - destruct (http_validate method s); [discriminate |].
      injection Hreq as _ <-. reflexivity. }
  eapply Forall_impl.
  - apply (execution_same_line (Construction.executor handle) w h' req v opts).
  - intros s (_ & _ & Hs). rewrite Hs, Hhdr, Htok. repeat split; reflexivity.
Qed.

End ConstructedClients.

(** ** First attempts that end an execution, and decode errors that do not *)

Section FirstAttempts.

Context {L : Type} `{RateLimiter L}.

Lemma terminal_stops (w : World) (now : Z) (policy : RetryPolicy)
    (n : nat) (resp : option Response) (err : option error) :
  terminal (n, resp, err) = true ->
  shouldRetry w now resp err policy = (false, 0).
Proof.
  unfold terminal. destruct resp as [r |], err as [e |]; try discriminate.
  - intros H2. unfold shouldRetry. simpl. rewrite H2. reflexivity.
  - intros He. rewrite shouldRetry_transport_error, He. reflexivity.
Qed.

Lemma retry_loop_stops (w : World) (ctx : Context) (policy : RetryPolicy)
    (req : Request) (v : Target) (fuel retries : nat) (st : LoopState) :
  terminal (retries, ls_resp st, ls_err st) = true ->
  retry_loop w ctx policy req v fuel retries st = st.
Proof.
  intros Ht. destruct fuel as [| fuel]; [reflexivity |].
  cbn [retry_loop].
  rewrite (terminal_stops w (clock w retries) policy retries _ _ Ht).
  reflexivity.
Qed.

(** X19. When the first attempt of an admitted execution succeeds, or fails
    in the transport with a context error, nothing follows it: the execution
    makes that one attempt, waits at no point, and returns the attempt's
    response and error, with or without a retry policy. *)
Theorem terminal_first_attempt_ends_execution
    (c : Client L) (w : World) (h : Heap) (req : Request) (v : Target)
    (opts : option RequestOptions) :
  limiter_answer c w (effective_context req opts) = None ->
  let a := first_attempt w h req v opts in
  terminal (O, at_resp a, at_err a) = true ->
  let out := DoWithOptions c w h req v opts in
  attempt_records (out_trace out) = [(O, at_resp a, at_err a)] /\
  sleeps (out_trace out) = [] /\
  out_resp out = at_resp a /\ out_err out = at_err a.
Proof.
  intros Hl a Hterm. cbv zeta.
  set (ctx := effective_context req opts) in *.
  assert (Htrace :
    out_trace (DoWithOptions c w h req v opts) =
      limiter_events c w ctx ++ [attempt_event 0 a] /\
    out_resp (DoWithOptions c w h req v opts) = at_resp a /\
    out_err (DoWithOptions c w h req v opts) = at_err a).
  { destruct (effective_policy c opts) as [policy |] eqn:Hp.
    - destruct (DoWithOptions_retrying c w h req v opts policy Hl Hp)
        as (Ht & Hr & He).
      cbv zeta in Ht, Hr, He. fold ctx in Ht, Hr, He.
      rewrite retry_loop_stops in Ht, Hr, He by exact Hterm.
      rewrite Ht, Hr, He. unfold loop_start. cbn [ls_trace ls_resp ls_err].
      auto.
    - exact (DoWithOptions_single c w h req v opts Hl Hp). }
  destruct Htrace as (-> & -> & ->).
  destruct (limiter_events_quiet c w ctx) as (_ & _ & Hs).
  rewrite attempt_records_app, sleeps_app, Hs.
  unfold limiter_events. destruct (rateLimiter c); simpl; auto.
Qed.

(** X20. An attempt that gets a 2xx response whose body does not decode
    returns the response with the decode error, and unless the status is one
    of [RetryableStatusCodes] or the error is a context error, [shouldRetry]
    answers "retry" with no explicit delay: the branch for network errors
    takes every error left over. *)
Theorem decode_error_is_eligible
    (w : World) (ctx : Context) (n : nat) (h : Heap) (req : Request)
    (resp : Response) (e : error) (now : Z) (policy : RetryPolicy) :
  rt_result (roundTrip w n (snapshot h req)) = inr resp ->
  is_2xx (StatusCode resp) = true ->
  json_Decode w (RespBody resp) (RespBodyErr resp) = Some e ->
  is_EOF e = false ->
  let a := doOnce w ctx n h req JSONTarget in
  at_resp a = Some resp /\ at_err a = Some e /\
  (status_retryable policy (StatusCode resp) = false ->
   is_context_error e = false ->
   shouldRetry w now (at_resp a) (at_err a) policy = (true, 0)).
Proof.
  intros Hrt H2 Hdec Heof. cbv zeta.
  assert (Hout : ((200 >? StatusCode resp) || (StatusCode resp >? 299)) = false).
  { destruct ((200 >? StatusCode resp) || (StatusCode resp >? 299)) eqn:Hq;
      [| reflexivity].
    apply not_2xx in Hq. congruence. }
  unfold doOnce. cbv zeta. rewrite Hrt, Hout, Hdec, Heof.
  cbn [at_resp at_err]. repeat split.
  intros Hs He. apply shouldRetry_decode_error; assumption.
Qed.

End FirstAttempts.

(** ** The further properties on the example worlds *)


Lemma explicit_delay_needs_retryable_status_witness :
  fst (shouldRetry (Examples.always_429 "120") 0
         (Some (Examples.retry_after "120"))
         (Some (ErrorResponseError 429 EmptyString)) DefaultRetryPolicy)
  = true.
Proof.
  destruct (explicit_delay_needs_retryable_status (Examples.always_429 "120") 0
              (Some (Examples.retry_after "120"))
              (Some (ErrorResponseError 429 EmptyString)) DefaultRetryPolicy)
    as [Hretry _].
  - vm_compute. discriminate.
  - exact Hretry.
Defined.

Lemma only_eligible_outcomes_are_retried_witness :
  Forall (fun rec => terminal rec = false)
    (removelast (attempt_records (out_trace Examples.retried_503))).
Proof.
  destruct (only_eligible_outcomes_are_retried Examples.plain_client
              Examples.always_503 [] Examples.get JSONTarget None
              DefaultRetryPolicy eq_refl) as [_ Hterm].
  exact Hterm.
Defined.

Lemma persistent_failure_uses_all_retries_witness :
  length (attempts (out_trace Examples.retried_503)) = 4%nat.
Proof.
  destruct (persistent_failure_uses_all_retries Examples.plain_client
              Examples.always_503 [] Examples.get JSONTarget None
              DefaultRetryPolicy eq_refl eq_refl) as [Hlen _].
  - intros n sent. exists (mkResponse 503 [] "{}" None). split; reflexivity.
  - intros n d. reflexivity.
  - intros e. discriminate.
  - exact Hlen.
Defined.

Lemma no_retries_without_budget_witness :
  DoWithOptions Scenes.no_budget_client Examples.always_503 [] Examples.get
    JSONTarget None
  = DoWithOptions (mkClient None None false) Examples.always_503 []
      Examples.get JSONTarget None.
Proof.
  apply (no_retries_without_budget Scenes.no_budget_client Examples.always_503
           [] Examples.get JSONTarget None Scenes.no_budget eq_refl).
  vm_compute. discriminate.
Defined.

Lemma constructed_client_retries_as_configured_witness :
  (length (attempts
             (out_trace
                (Do (Construction.executor Scenes.example_handle)
                   Examples.always_503 [] Examples.get JSONTarget)))
   <= 1 + Z.to_nat (MaxRetries DefaultRetryPolicy))%nat.
Proof.
  pose proof (@constructed_client_retries_as_configured
                TokenBucket.TokenBucketRateLimiter _ Scenes.parse_example
                "https://assets.example.com" "secret" None
                Scenes.example_handle Examples.always_503 [] Examples.get
                JSONTarget eq_refl) as Hc.
  cbv zeta in Hc. destruct Hc as [_ Hbound]. exact Hbound.
Defined.

Lemma every_attempt_is_authorized_witness :
  Forall (fun s =>
            Header_Get (sent_header s) "Authorization" = "Bearer secret"%string /\
            Header_Get (sent_header s) "Accept" = "application/json"%string /\
            Header_Get (sent_header s) "Content-Type" = "application/json"%string)
    (sent_requests
       (out_trace
          (DoWithOptions (Construction.executor Scenes.example_handle)
             Examples.always_503 [Examples.form]
             (mkRequest "POST" "https://assets.example.com/api/v1/hardware"
                [("Accept", "application/json");
                 ("Content-Type", "application/json");
                 ("Authorization", "Bearer secret")]%string
                Examples.background (Some O) (Some (inr Examples.form)))
             JSONTarget None))).
Proof.
  apply (@every_attempt_is_authorized TokenBucket.TokenBucketRateLimiter _
           Scenes.parse_example "https://assets.example.com" "secret" None
           Scenes.example_handle string Scenes.encode_example
           Scenes.resolve_example Scenes.validate_example
           [] [Examples.form] Examples.background "POST" "/api/v1/hardware"
           (Some Examples.form)).
  - reflexivity.
  - reflexivity.
Defined.

Lemma terminal_first_attempt_ends_execution_witness :
  length (attempt_records
            (out_trace (DoWithOptions Examples.plain_client Scenes.ok_200 []
                          Examples.get JSONTarget None))) = 1%nat /\
  out_err (DoWithOptions Examples.plain_client Scenes.ok_200 []
             Examples.get JSONTarget None) = None.
Proof.
  destruct (terminal_first_attempt_ends_execution Examples.plain_client
              Scenes.ok_200 [] Examples.get JSONTarget None eq_refl eq_refl)
    as (Hrec & _ & _ & Herr).
  rewrite Hrec, Herr. split; reflexivity.
Defined.

Lemma decode_error_is_eligible_witness :
  shouldRetry Examples.html_200 0
    (at_resp (doOnce Examples.html_200 Examples.background 0 [] Examples.get
                JSONTarget))
    (at_err (doOnce Examples.html_200 Examples.background 0 [] Examples.get
               JSONTarget))
    DefaultRetryPolicy
  = (true, 0).
Proof.
  destruct (decode_error_is_eligible Examples.html_200 Examples.background 0 []
              Examples.get Scenes.page Examples.syntax_error 0
              DefaultRetryPolicy eq_refl eq_refl eq_refl eq_refl)
    as (_ & _ & Hretry).
  apply Hretry.
  - vm_compute. reflexivity.
  - reflexivity.
Defined.

(** ** [Do] and [DoContext] *)

(** X21. [DoContext] runs the request under the context it is given, in
    place of the request's own: the execution is that of [Do] on the request
    with its context replaced. Given a nil context it does not fall back to
    the request's context either, but to the background context. *)
Theorem DoContext_replaces_the_context
    {L : Type} `{RateLimiter L}
    (c : Client L) (w : World) (h : Heap) (background : Context)
    (req : Request) (v : Target) :
  (forall ctx,
      DoContext c w h (Some ctx) background req v
      = Do c w h (WithContext req ctx) v) /\
  DoContext c w h None background req v
  = Do c w h (WithContext req background) v.
Proof. split; [intros ctx |]; reflexivity. Qed.
